(** * Visual Metronome: the playback engine of [server.js]

    A shallow embedding of class [MetronomeServer] (src/server.js) and the
    properties of its transport, navigation and tempo code.

    Conventions of the embedding.
    - JavaScript numbers that hold bar numbers, indices, beats, tempi and
      timestamps are integers ([Z]); durations computed by division are
      exact rationals ([Q]).  Rounding of IEEE doubles is not modelled.
    - [null] / [undefined] are [None]; a value used as a condition is
      truthy when it is [Some] non-zero number (or a non-empty string).
    - [this.*] is one record, [Server], threaded through every method.
      [Date.now()] is the extra argument [now].
    - A method that can raise a [TypeError] (a property read on
      [undefined]) returns [option]: [None] is the exception.  Every such
      read happens before the method's first assignment, so the state at
      the exception is the state before the call.
    - What the server sends out (MIDI bytes, OSC messages, socket.io
      events, the song-end callback) is appended to the [events] log, the
      oldest first.  Payloads of socket.io events are left out. *)

From Stdlib Require Import String ZArith QArith Qround List Bool Lia.
Import ListNotations.
Open Scope Z_scope.

(** ** JavaScript helpers *)

(** [o] used as a condition, for a number-or-null. *)
Definition truthy (o : option Z) : bool :=
  match o with
  | Some z => negb (z =? 0)
  | None => false
  end.

(** [o || d] for a number-or-null. *)
Definition orElse (o : option Z) (d : Z) : Z :=
  if truthy o then match o with Some z => z | None => d end else d.

(** [s] used as a condition, for a string-or-null. *)
Definition truthyS (o : option string) : bool :=
  match o with
  | Some s => negb (String.eqb s EmptyString)
  | None => false
  end.

(** [l[i]]: [undefined] outside the array. *)
Definition index {A : Type} (l : list A) (i : Z) : option A :=
  if i <? 0 then None else nth_error l (Z.to_nat i).

(** [l.length]. *)
Definition len {A : Type} (l : list A) : Z := Z.of_nat (List.length l).

(** ** The score document *)

Record TimeSignature := mkTimeSignature { beats : Z; noteValue : Z }.

Inductive DurationType := beatsType | secondsType.

(** A bar as the editor writes it (src/renderer.js:325-340).  The server
    reads [chords], [redirect], [accentPattern], [subdivision],
    [oscAddress] and [oscArgs]; it never reads [redirectCount],
    [isFermata], [fermataDuration] or [fermataDurationType]. *)
Module Bar.
Record t := mk {
  chords : string;
  redirect : option Z;
  redirectCount : option Z;
  isFermata : bool;
  fermataDuration : option Q;
  fermataDurationType : option DurationType;
  accentPattern : option (list Z);
  subdivision : option string;
  oscAddress : option string;
  oscArgs : option string
}.
End Bar.

(** A section (src/renderer.js:319-341).  The server never reads
    [tempoTransitionBars]. *)
Module Sect.
Record t := mk {
  name : string;
  tempo : Z;
  timeSignature : TimeSignature;
  tempoTransitionBars : Z;
  bars : list Bar.t
}.
End Sect.

(** [scoreData.loop]. *)
Module Loop.
Record t := mk {
  enabled : bool;
  start : option Z;
  stop : option Z              (* the field [end] *)
}.
End Loop.

Module Score.
Record t := mk {
  name : string;
  countoff : Z;
  tempoPercentage : option Z;
  sections : list Sect.t;
  loop : option Loop.t
}.
End Score.

(** An entry of [this.flatBars] (server.js:75-88). *)
Module FlatBar.
Record t := mk {
  absoluteNumber : Z;
  sectionIndex : Z;
  barInSection : Z;
  sectionName : string;
  tempo : Z;
  timeSignature : TimeSignature;
  chords : string;
  redirect : option Z;
  accentPattern : list Z;
  subdivision : string;
  oscAddress : option string;
  oscArgs : option string
}.
End FlatBar.

(** ** What the server sends out *)

Inductive Event :=
| MidiSend (byte : Z)                         (* this.midiOutput.send([byte]) *)
| OscSend (address : string) (args : option string)
| IoEmit (event : string)                     (* this.io.emit(event, ...) *)
| SongEnd.                                    (* this.onSongEnd() *)

(** ** The server object *)

Record Server := mkServer {
  scoreData : Score.t;
  repeatSong : bool;
  oscEnabled : bool;              (* this.oscSettings.enabled *)
  oscClient : bool;               (* this.oscClient is not null *)
  lastTriggeredBar : Z;
  midiEnabled : bool;             (* this.midiSettings.enabled *)
  midiOutput : bool;              (* this.midiOutput is not null *)
  midiClockInterval : option Q;   (* the pulse timer and its period in ms *)
  isPlaying : bool;
  inCountoff : bool;
  countoffBarsRemaining : Z;
  currentSectionIndex : Z;
  currentBarInSection : Z;
  currentBeat : Z;
  barStartTime : option Z;
  updateInterval : bool;          (* the 60 Hz timer is set *)
  loopEnabled : bool;
  loopStart : option Z;
  loopEnd : option Z;
  flatBars : list FlatBar.t;
  onSongEnd : bool;               (* a song-end callback is registered *)
  events : list Event
}.

(** Field assignments, [this.f = v]. *)
Definition set_lastTriggeredBar (v : Z) (s : Server) : Server :=
  mkServer (scoreData s) (repeatSong s) (oscEnabled s) (oscClient s) v
    (midiEnabled s) (midiOutput s) (midiClockInterval s) (isPlaying s)
    (inCountoff s) (countoffBarsRemaining s) (currentSectionIndex s)
    (currentBarInSection s) (currentBeat s) (barStartTime s)
    (updateInterval s) (loopEnabled s) (loopStart s) (loopEnd s)
    (flatBars s) (onSongEnd s) (events s).

Definition set_midiClockInterval (v : option Q) (s : Server) : Server :=
  mkServer (scoreData s) (repeatSong s) (oscEnabled s) (oscClient s)
    (lastTriggeredBar s) (midiEnabled s) (midiOutput s) v (isPlaying s)
    (inCountoff s) (countoffBarsRemaining s) (currentSectionIndex s)
    (currentBarInSection s) (currentBeat s) (barStartTime s)
    (updateInterval s) (loopEnabled s) (loopStart s) (loopEnd s)
    (flatBars s) (onSongEnd s) (events s).

Definition set_isPlaying (v : bool) (s : Server) : Server :=
  mkServer (scoreData s) (repeatSong s) (oscEnabled s) (oscClient s)
    (lastTriggeredBar s) (midiEnabled s) (midiOutput s)
    (midiClockInterval s) v
    (inCountoff s) (countoffBarsRemaining s) (currentSectionIndex s)
    (currentBarInSection s) (currentBeat s) (barStartTime s)
    (updateInterval s) (loopEnabled s) (loopStart s) (loopEnd s)
    (flatBars s) (onSongEnd s) (events s).

Definition set_inCountoff (v : bool) (s : Server) : Server :=
  mkServer (scoreData s) (repeatSong s) (oscEnabled s) (oscClient s)
    (lastTriggeredBar s) (midiEnabled s) (midiOutput s)
    (midiClockInterval s) (isPlaying s)
    v (countoffBarsRemaining s) (currentSectionIndex s)
    (currentBarInSection s) (currentBeat s) (barStartTime s)
    (updateInterval s) (loopEnabled s) (loopStart s) (loopEnd s)
    (flatBars s) (onSongEnd s) (events s).

Definition set_countoffBarsRemaining (v : Z) (s : Server) : Server :=
  mkServer (scoreData s) (repeatSong s) (oscEnabled s) (oscClient s)
    (lastTriggeredBar s) (midiEnabled s) (midiOutput s)
    (midiClockInterval s) (isPlaying s)
    (inCountoff s) v (currentSectionIndex s)
    (currentBarInSection s) (currentBeat s) (barStartTime s)
    (updateInterval s) (loopEnabled s) (loopStart s) (loopEnd s)
    (flatBars s) (onSongEnd s) (events s).

Definition set_currentSectionIndex (v : Z) (s : Server) : Server :=
  mkServer (scoreData s) (repeatSong s) (oscEnabled s) (oscClient s)
    (lastTriggeredBar s) (midiEnabled s) (midiOutput s)
    (midiClockInterval s) (isPlaying s)
    (inCountoff s) (countoffBarsRemaining s) v
    (currentBarInSection s) (currentBeat s) (barStartTime s)
    (updateInterval s) (loopEnabled s) (loopStart s) (loopEnd s)
    (flatBars s) (onSongEnd s) (events s).

Definition set_currentBarInSection (v : Z) (s : Server) : Server :=
  mkServer (scoreData s) (repeatSong s) (oscEnabled s) (oscClient s)
    (lastTriggeredBar s) (midiEnabled s) (midiOutput s)
    (midiClockInterval s) (isPlaying s)
    (inCountoff s) (countoffBarsRemaining s) (currentSectionIndex s)
    v (currentBeat s) (barStartTime s)
    (updateInterval s) (loopEnabled s) (loopStart s) (loopEnd s)
    (flatBars s) (onSongEnd s) (events s).

Definition set_currentBeat (v : Z) (s : Server) : Server :=
  mkServer (scoreData s) (repeatSong s) (oscEnabled s) (oscClient s)
    (lastTriggeredBar s) (midiEnabled s) (midiOutput s)
    (midiClockInterval s) (isPlaying s)
    (inCountoff s) (countoffBarsRemaining s) (currentSectionIndex s)
    (currentBarInSection s) v (barStartTime s)
    (updateInterval s) (loopEnabled s) (loopStart s) (loopEnd s)
    (flatBars s) (onSongEnd s) (events s).

Definition set_barStartTime (v : option Z) (s : Server) : Server :=
  mkServer (scoreData s) (repeatSong s) (oscEnabled s) (oscClient s)
    (lastTriggeredBar s) (midiEnabled s) (midiOutput s)
    (midiClockInterval s) (isPlaying s)
    (inCountoff s) (countoffBarsRemaining s) (currentSectionIndex s)
    (currentBarInSection s) (currentBeat s) v
    (updateInterval s) (loopEnabled s) (loopStart s) (loopEnd s)
    (flatBars s) (onSongEnd s) (events s).

Definition set_updateInterval (v : bool) (s : Server) : Server :=
  mkServer (scoreData s) (repeatSong s) (oscEnabled s) (oscClient s)
    (lastTriggeredBar s) (midiEnabled s) (midiOutput s)
    (midiClockInterval s) (isPlaying s)
    (inCountoff s) (countoffBarsRemaining s) (currentSectionIndex s)
    (currentBarInSection s) (currentBeat s) (barStartTime s)
    v (loopEnabled s) (loopStart s) (loopEnd s)
    (flatBars s) (onSongEnd s) (events s).

Definition set_loop (e : bool) (a b : option Z) (s : Server) : Server :=
  mkServer (scoreData s) (repeatSong s) (oscEnabled s) (oscClient s)
    (lastTriggeredBar s) (midiEnabled s) (midiOutput s)
    (midiClockInterval s) (isPlaying s)
    (inCountoff s) (countoffBarsRemaining s) (currentSectionIndex s)
    (currentBarInSection s) (currentBeat s) (barStartTime s)
    (updateInterval s) e a b
    (flatBars s) (onSongEnd s) (events s).

Definition set_repeatSong (v : bool) (s : Server) : Server :=
  mkServer (scoreData s) v (oscEnabled s) (oscClient s)
    (lastTriggeredBar s) (midiEnabled s) (midiOutput s)
    (midiClockInterval s) (isPlaying s)
    (inCountoff s) (countoffBarsRemaining s) (currentSectionIndex s)
    (currentBarInSection s) (currentBeat s) (barStartTime s)
    (updateInterval s) (loopEnabled s) (loopStart s) (loopEnd s)
    (flatBars s) (onSongEnd s) (events s).

(** One more entry in the log of what was sent. *)
Definition emit (e : Event) (s : Server) : Server :=
  mkServer (scoreData s) (repeatSong s) (oscEnabled s) (oscClient s)
    (lastTriggeredBar s) (midiEnabled s) (midiOutput s)
    (midiClockInterval s) (isPlaying s)
    (inCountoff s) (countoffBarsRemaining s) (currentSectionIndex s)
    (currentBarInSection s) (currentBeat s) (barStartTime s)
    (updateInterval s) (loopEnabled s) (loopStart s) (loopEnd s)
    (flatBars s) (onSongEnd s) (events s ++ [e]).

(** ** Bar index: [buildBarStructure] (server.js:68-93) *)

(** The object pushed for one bar (server.js:75-88). *)
Definition flatBarOf (section : Sect.t) (sectionIndex : Z)
    (bar : Bar.t) (barIndex : Z) (absoluteBarNumber : Z) : FlatBar.t :=
  FlatBar.mk absoluteBarNumber sectionIndex barIndex
    (Sect.name section) (Sect.tempo section) (Sect.timeSignature section)
    (Bar.chords bar) (Bar.redirect bar)
    (match Bar.accentPattern bar with Some p => p | None => [] end)
    (if truthyS (Bar.subdivision bar)
     then match Bar.subdivision bar with Some s => s | None => "none"%string end
     else "none"%string)
    (if truthyS (Bar.oscAddress bar) then Bar.oscAddress bar else None)
    (if truthyS (Bar.oscArgs bar) then Bar.oscArgs bar else None).

(** [section.bars.forEach((bar, barIndex) => { this.flatBars.push(...) })]:
    the accumulator is [this.flatBars] and the counter
    [absoluteBarNumber]. *)
Fixpoint forEachBar (section : Sect.t) (sectionIndex : Z)
    (bars : list Bar.t) (barIndex : Z)
    (flat : list FlatBar.t) (absoluteBarNumber : Z)
    : list FlatBar.t * Z :=
  match bars with
  | [] => (flat, absoluteBarNumber)
  | bar :: rest =>
      forEachBar section sectionIndex rest (barIndex + 1)
        (flat ++ [flatBarOf section sectionIndex bar barIndex
                    absoluteBarNumber])
        (absoluteBarNumber + 1)
  end.

(** [this.scoreData.sections.forEach((section, sectionIndex) => ...)]. *)
Fixpoint forEachSection (sections : list Sect.t) (sectionIndex : Z)
    (flat : list FlatBar.t) (absoluteBarNumber : Z)
    : list FlatBar.t * Z :=
  match sections with
  | [] => (flat, absoluteBarNumber)
  | section :: rest =>
      let '(flat', abs') :=
        forEachBar section sectionIndex (Sect.bars section) 0
          flat absoluteBarNumber in
      forEachSection rest (sectionIndex + 1) flat' abs'
  end.

Definition buildBarStructure (score : Score.t) : list FlatBar.t :=
  fst (forEachSection (Score.sections score) 0 [] 1).

(** [this.totalBars] of a score. *)
Definition totalBars (score : Score.t) : Z := len (buildBarStructure score).

(** ** Position: [getAbsoluteBarNumber] (server.js:95-106) *)

(** The loop [for (i = 0; i < n; i++) absoluteBar += sections[i].bars.length]
    as the sum it adds; [sections[i]] undefined raises. *)
Fixpoint barsBefore (sections : list Sect.t) (n : nat) {struct n}
    : option Z :=
  match n with
  | O => Some 0
  | S n' =>
      match sections with
      | [] => None
      | section :: rest =>
          match barsBefore rest n' with
          | Some k => Some (len (Sect.bars section) + k)
          | None => None
          end
      end
  end.

Definition getAbsoluteBarNumber (s : Server) : option Z :=
  if inCountoff s then Some (- countoffBarsRemaining s)
  else
    match barsBefore (Score.sections (scoreData s))
            (Z.to_nat (currentSectionIndex s)) with
    | Some k => Some (1 + k + currentBarInSection s)
    | None => None
    end.

(** ** Seek: [seekToBar] (server.js:413-438) *)

(** The [for] loop of [seekToBar] over the sections not yet visited;
    returns [(remaining, sectionIndex)] at the [break] or at the end. *)
Fixpoint seekLoop (sections : list Sect.t) (remaining sectionIndex : Z)
    : Z * Z :=
  match sections with
  | [] => (remaining, sectionIndex)
  | section :: rest =>
      let barsInSection := len (Sect.bars section) in
      if remaining <=? barsInSection then (remaining, sectionIndex)
      else seekLoop rest (remaining - barsInSection) (sectionIndex + 1)
  end.

Definition seekToBar (now : Z) (absoluteBarNumber : Z) (s : Server)
    : Server :=
  let '(remaining, sectionIndex) :=
    seekLoop (Score.sections (scoreData s)) absoluteBarNumber 0 in
  let s := set_currentSectionIndex
             (Z.min sectionIndex (len (Score.sections (scoreData s)) - 1))
             s in
  let s := set_currentBarInSection (remaining - 1) s in
  let s := set_currentBeat 0 s in
  let s := set_inCountoff false s in
  let s := set_barStartTime (Some now) s in
  emit (IoEmit "state-update"%string) s.

(** ** MIDI clock (server.js:237-292) *)

Definition stopMidiClock (s : Server) : Server :=
  let s := match midiClockInterval s with
           | Some _ => set_midiClockInterval None s
           | None => s
           end in
  if midiOutput s then emit (MidiSend 0xFC) s else s.

Definition startMidiClock (tempo : Z) (s : Server) : Server :=
  if negb (midiEnabled s) || negb (midiOutput s) then s
  else
    let s := stopMidiClock s in
    let s := emit (MidiSend 0xFA) s in
    let pulsesPerQuarterNote := 24%Q in
    let msPerBeat := (60000 / inject_Z tempo)%Q in
    let msPerPulse := (msPerBeat / pulsesPerQuarterNote)%Q in
    set_midiClockInterval (Some msPerPulse) s.

Definition sendMidiContinue (s : Server) : Server :=
  if negb (midiEnabled s) || negb (midiOutput s) then s
  else emit (MidiSend 0xFB) s.

(** The pulse timer's callback (server.js:255-263). *)
Definition midiPulse (s : Server) : Server :=
  if midiOutput s && isPlaying s then emit (MidiSend 0xF8) s else s.

(** ** Tempo and durations *)

(** [section?.tempo || 120]. *)
Definition tempoOr120 (section : option Sect.t) : Z :=
  match section with
  | Some sec => if Sect.tempo sec =? 0 then 120 else Sect.tempo sec
  | None => 120
  end.

(** server.js:368-374. *)
Definition getCurrentTempo (s : Server) : Z :=
  if inCountoff s then tempoOr120 (index (Score.sections (scoreData s)) 0)
  else tempoOr120
         (index (Score.sections (scoreData s)) (currentSectionIndex s)).

(** server.js:599-607.  A division by zero (tempo, percentage or beats
    equal to zero), [Infinity] or [NaN] in JavaScript, is [0] here; the
    theorems on durations assume positive operands. *)
Definition getBarDuration (s : Server) (tempo : Z)
    (timeSignature : TimeSignature) : Q :=
  let beatsPerBar := inject_Z (beats timeSignature) in
  let tempoPercentage :=
    inject_Z (orElse (Score.tempoPercentage (scoreData s)) 100) in
  let adjustedTempo := (inject_Z tempo * (tempoPercentage / 100))%Q in
  let beatsPerSecond := (adjustedTempo / 60)%Q in
  let secondsPerBar := (beatsPerBar / beatsPerSecond)%Q in
  (secondsPerBar * 1000)%Q.


(** ** The current bar: [getCurrentBarInfo] (server.js:108-129)

    [None]: [firstSection.tempo] with no first section, or the loop of
    [getAbsoluteBarNumber], raised.  [Some None]: the result [null]. *)
Definition getCurrentBarInfo (s : Server) : option (option FlatBar.t) :=
  if inCountoff s then
    match index (Score.sections (scoreData s)) 0 with
    | Some firstSection =>
        Some (Some (FlatBar.mk 0 0 0 "Countoff"
                      (Sect.tempo firstSection)
                      (Sect.timeSignature firstSection)
                      "" None [0] "none" None None))
    | None => None
    end
  else
    match getAbsoluteBarNumber s with
    | Some absoluteBar => Some (index (flatBars s) (absoluteBar - 1))
    | None => None
    end.

(** ** Transport commands *)

(** server.js:392-411. *)
Definition stopPlayback (s : Server) : Server :=
  let s := set_isPlaying false s in
  let s := set_inCountoff false s in
  let s := set_countoffBarsRemaining 0 s in
  let s := set_currentSectionIndex 0 s in
  let s := set_currentBarInSection 0 s in
  let s := set_currentBeat 0 s in
  let s := set_barStartTime None s in
  let s := set_lastTriggeredBar (-1) s in
  let s := set_updateInterval false s in
  let s := stopMidiClock s in
  emit (IoEmit "playback-stopped") s.

(** server.js:376-390. *)
Definition pause (s : Server) : Server :=
  if negb (isPlaying s) then s
  else
    let s := set_isPlaying false s in
    let s := set_updateInterval false s in
    let s := stopMidiClock s in
    emit (IoEmit "playback-paused") s.

(** server.js:335-366.  [startPlaybackLoop] sets the 60 Hz timer, whose
    callback is [tick] below. *)
Definition play (now : Z) (s : Server) : Server :=
  if isPlaying s then s
  else
    let wasPlaying :=
      match barStartTime s with Some _ => true | None => false end in
    let s := set_isPlaying true s in
    let s :=
      if negb (truthy (barStartTime s))
         && (0 <? Score.countoff (scoreData s))
      then
        let s := set_inCountoff true s in
        let s := set_countoffBarsRemaining (Score.countoff (scoreData s)) s in
        let s := set_currentSectionIndex 0 s in
        let s := set_currentBarInSection 0 s in
        set_currentBeat 0 s
      else s in
    let s :=
      if negb (truthy (barStartTime s)) then set_barStartTime (Some now) s
      else s in
    let currentTempo := getCurrentTempo s in
    let s :=
      if wasPlaying then startMidiClock currentTempo (sendMidiContinue s)
      else startMidiClock currentTempo s in
    let s := set_updateInterval true s in
    emit (IoEmit "playback-started") s.

(** server.js:440-444. *)
Definition setLoop (l : Loop.t) (s : Server) : Server :=
  set_loop (Loop.enabled l) (Loop.start l) (Loop.stop l) s.

(** server.js:169-171. *)
Definition setRepeat (repeat : bool) (s : Server) : Server :=
  set_repeatSong repeat s.

(** [x || null] for a number-or-null. *)
Definition orNull (o : option Z) : option Z :=
  if truthy o then o else None.

(** ** Bar completion: [advanceToNextBar] (server.js:532-597) *)

(** Lines 564-596, "Advance to next bar".  [None]: [currentSection] is
    undefined and [currentSection.bars] raised. *)
Definition plainAdvance (now : Z) (s : Server) : option Server :=
  match index (Score.sections (scoreData s)) (currentSectionIndex s) with
  | None => None
  | Some currentSection =>
      let finish (s : Server) :=
        Some (set_barStartTime (Some now) (set_currentBeat 0 s)) in
      if currentBarInSection s + 1 <? len (Sect.bars currentSection) then
        finish (set_currentBarInSection (currentBarInSection s + 1) s)
      else if currentSectionIndex s + 1
              <? len (Score.sections (scoreData s)) then
        finish (set_currentBarInSection 0
                  (set_currentSectionIndex (currentSectionIndex s + 1) s))
      else
        let s := if onSongEnd s then emit SongEnd s else s in
        if repeatSong s then
          finish (set_lastTriggeredBar (-1)
                    (set_currentBarInSection 0
                       (set_currentSectionIndex 0 s)))
        else Some (stopPlayback s)
  end.

(** Lines 533-546, the countoff bar. *)
Definition countoffAdvance (now : Z) (s : Server) : Server :=
  let s := set_countoffBarsRemaining (countoffBarsRemaining s - 1) s in
  let s :=
    if countoffBarsRemaining s <=? 0 then
      set_currentBarInSection 0
        (set_currentSectionIndex 0 (set_inCountoff false s))
    else s in
  set_barStartTime (Some now) (set_currentBeat 0 s).

(** [currentBarInfo && currentBarInfo.redirect]: the target when the
    condition holds. *)
Definition redirectOf (currentBarInfo : option FlatBar.t) : option Z :=
  match currentBarInfo with
  | Some info => orNull (FlatBar.redirect info)
  | None => None
  end.

Definition advanceToNextBar (now : Z) (s : Server) : option Server :=
  if inCountoff s then Some (countoffAdvance now s)
  else
    match getAbsoluteBarNumber s with
    | None => None
    | Some currentAbsoluteBar =>
        let currentBarInfo := index (flatBars s) (currentAbsoluteBar - 1) in
        match redirectOf currentBarInfo with
        | Some target => Some (seekToBar now target s)
        | None =>
            if loopEnabled s && truthy (loopEnd s)
               && (orElse (loopEnd s) 0 <=? currentAbsoluteBar)
            then
              Some (seekToBar now (orElse (loopStart s) 1)
                      (set_lastTriggeredBar (-1) s))
            else plainAdvance now s
        end
    end.

(** ** The 60 Hz timer: the callback of [startPlaybackLoop]
    (server.js:475-529) *)

(** [sendOscMessage] (server.js:195-208); the argument string is logged
    as it is in the bar, before it is split and parsed. *)
Definition sendOscMessage (address : string) (args : option string)
    (s : Server) : Server :=
  if negb (oscEnabled s) || negb (oscClient s) then s
  else emit (OscSend address args) s.

(** Lines 505-520, the OSC trigger at a new bar. *)
Definition oscTrigger (barInfo : FlatBar.t) (s : Server) : Server :=
  if negb (inCountoff s)
     && negb (FlatBar.absoluteNumber barInfo =? lastTriggeredBar s)
  then
    let s := set_lastTriggeredBar (FlatBar.absoluteNumber barInfo) s in
    if truthyS (FlatBar.oscAddress barInfo) then
      match FlatBar.oscAddress barInfo with
      | Some address => sendOscMessage address (FlatBar.oscArgs barInfo) s
      | None => s
      end
    else s
  else s.

(** Line 486, the duration of the bar being played. *)
Definition barDurationOf (s : Server) (barInfo : FlatBar.t) : Q :=
  getBarDuration s (FlatBar.tempo barInfo) (FlatBar.timeSignature barInfo).

Definition tick (now : Z) (s : Server) : option Server :=
  if negb (isPlaying s) then Some s
  else
    match getCurrentBarInfo s with
    | None => None
    | Some None => Some (stopPlayback s)
    | Some (Some barInfo) =>
        let barDuration := barDurationOf s barInfo in
        let beatDuration :=
          (barDuration / inject_Z (beats (FlatBar.timeSignature barInfo)))%Q in
        let elapsed :=
          inject_Z (now - match barStartTime s with
                          | Some t => t
                          | None => 0
                          end) in
        let newBeat := Qfloor (elapsed / beatDuration) in
        let moved :=
          if Qle_bool barDuration elapsed then advanceToNextBar now s
          else if negb (newBeat =? currentBeat s) then
            Some (set_currentBeat newBeat s)
          else Some s in
        match moved with
        | None => None
        | Some s =>
            Some (emit (IoEmit "state-update") (oscTrigger barInfo s))
        end
    end.

(** ** Construction and score replacement *)

(** The constructor (server.js:9-66).  [setupMidiOutput] is asynchronous:
    the output is closed until [midiOutputOpened]. *)
Definition newServer (scoreData : Score.t) (repeatSong : bool)
    (oscEnabled midiEnabled : bool) : Server :=
  let l := Score.loop scoreData in
  mkServer scoreData repeatSong oscEnabled oscEnabled (-1)
    midiEnabled false None
    false false 0 0 0 0 None false
    (match l with Some l => Loop.enabled l | None => false end)
    (match l with Some l => orNull (Loop.start l) | None => None end)
    (match l with Some l => orNull (Loop.stop l) | None => None end)
    (buildBarStructure scoreData) false [].

(** The assignment of [this.midiOutput] when [openMidiOut] resolves
    (server.js:217). *)
Definition midiOutputOpened (s : Server) : Server :=
  mkServer (scoreData s) (repeatSong s) (oscEnabled s) (oscClient s)
    (lastTriggeredBar s) (midiEnabled s) true
    (midiClockInterval s) (isPlaying s)
    (inCountoff s) (countoffBarsRemaining s) (currentSectionIndex s)
    (currentBarInSection s) (currentBeat s) (barStartTime s)
    (updateInterval s) (loopEnabled s) (loopStart s) (loopEnd s)
    (flatBars s) (onSongEnd s) (events s).

(** [server.onSongEnd = callback] (set by the main process). *)
Definition registerOnSongEnd (s : Server) : Server :=
  mkServer (scoreData s) (repeatSong s) (oscEnabled s) (oscClient s)
    (lastTriggeredBar s) (midiEnabled s) (midiOutput s)
    (midiClockInterval s) (isPlaying s)
    (inCountoff s) (countoffBarsRemaining s) (currentSectionIndex s)
    (currentBarInSection s) (currentBeat s) (barStartTime s)
    (updateInterval s) (loopEnabled s) (loopStart s) (loopEnd s)
    (flatBars s) true (events s).

(** server.js:446-459. *)
Definition updateScore (newScoreData : Score.t) (s : Server) : Server :=
  let l := Score.loop newScoreData in
  emit (IoEmit "score-data")
    (mkServer newScoreData (repeatSong s) (oscEnabled s) (oscClient s)
       (lastTriggeredBar s) (midiEnabled s) (midiOutput s)
       (midiClockInterval s) (isPlaying s)
       (inCountoff s) (countoffBarsRemaining s) (currentSectionIndex s)
       (currentBarInSection s) (currentBeat s) (barStartTime s)
       (updateInterval s)
       (match l with Some l => Loop.enabled l | None => false end)
       (match l with Some l => orNull (Loop.start l) | None => None end)
       (match l with Some l => orNull (Loop.stop l) | None => None end)
       (buildBarStructure newScoreData) (onSongEnd s) (events s)).

(** * Definitions used by the statements *)

(** ** The bar index as a list comprehension *)

(** The bars of all sections together. *)
Fixpoint sumBars (sections : list Sect.t) : Z :=
  match sections with
  | [] => 0
  | section :: rest => len (Sect.bars section) + sumBars rest
  end.

(** What [forEachBar] appends. *)
Fixpoint flatOfBars (section : Sect.t) (sectionIndex : Z)
    (bars : list Bar.t) (barIndex absoluteBarNumber : Z)
    : list FlatBar.t :=
  match bars with
  | [] => []
  | bar :: rest =>
      flatBarOf section sectionIndex bar barIndex absoluteBarNumber
      :: flatOfBars section sectionIndex rest (barIndex + 1)
           (absoluteBarNumber + 1)
  end.

(** What [forEachSection] appends. *)
Fixpoint flatOfSections (sections : list Sect.t)
    (sectionIndex absoluteBarNumber : Z) : list FlatBar.t :=
  match sections with
  | [] => []
  | section :: rest =>
      flatOfBars section sectionIndex (Sect.bars section) 0
        absoluteBarNumber
      ++ flatOfSections rest (sectionIndex + 1)
           (absoluteBarNumber + len (Sect.bars section))
  end.

(** A position that addresses a bar of the score: the section exists and
    the offset is inside it. *)
Definition validPosition (s : Server) : Prop :=
  exists section,
    index (Score.sections (scoreData s)) (currentSectionIndex s)
      = Some section
    /\ 0 <= currentBarInSection s < len (Sect.bars section).

Definition validPositionb (s : Server) : bool :=
  match index (Score.sections (scoreData s)) (currentSectionIndex s) with
  | Some section =>
      (0 <=? currentBarInSection s)
      && (currentBarInSection s <? len (Sect.bars section))
  | None => false
  end.


(** ** Sample scores and servers *)

Definition plainBar : Bar.t :=
  Bar.mk "" None None false None None None None None None.

Definition fourFour : TimeSignature := mkTimeSignature 4 4.

(** Two sections, of two and of three bars, at 100 and 200 BPM; the
    second asks for a tempo transition over the last two bars of the
    first. *)
Definition twoSections : Score.t :=
  Score.mk "two sections" 0 None
    [ Sect.mk "A" 100 fourFour 0 [plainBar; plainBar];
      Sect.mk "B" 200 fourFour 2 [plainBar; plainBar; plainBar] ]
    None.

Definition twoSectionsServer : Server := newServer twoSections false false false.

(** The server on bar 2, the last bar of section A. *)
Definition lastBarOfA : Server := seekToBar 0 2 twoSectionsServer.




(** The two sections with a loop over bars 2 to 4, playing on bar 4. *)
Definition loopScore : Score.t :=
  Score.mk "loop" 0 None (Score.sections twoSections)
    (Some (Loop.mk true (Some 2) (Some 4))).


(** The two sections playing on bar 5, the last one, with a song-end
    callback registered and the MIDI output open. *)
Definition lastBarServer : Server :=
  seekToBar 0 5
    (play 0 (registerOnSongEnd
               (midiOutputOpened (newServer twoSections false false true)))).

(** A bar that redirects to bar 1, with [redirectCount] 1, at the end
    of a section of two bars. *)
Definition redirectBar : Bar.t :=
  Bar.mk "" (Some 1) (Some 1) false None None None None None None.

Definition redirectScore : Score.t :=
  Score.mk "redirect" 0 None
    [ Sect.mk "A" 120 fourFour 0 [plainBar; redirectBar] ] None.

(** Playing, on the redirecting bar 2. *)
Definition redirectOnBarTwo : Server :=
  seekToBar 0 2 (play 0 (newServer redirectScore false false false)).

(** A score of one bar whose last section is empty, playing on bar 1 with
    a song-end callback registered. *)
Definition trailingEmptyScore : Score.t :=
  Score.mk "trailing" 0 None
    [ Sect.mk "A" 120 fourFour 0 [plainBar];
      Sect.mk "B" 120 fourFour 0 [] ] None.

Definition trailingEmptyServer : Server :=
  play 0 (registerOnSongEnd (newServer trailingEmptyScore false false false)).

(** [n] bar completions in a row. *)
Fixpoint advanceMany (now : Z) (n : nat) (s : Server) : option Server :=
  match n with
  | O => Some s
  | S n' =>
      match advanceToNextBar now s with
      | Some s' => advanceMany now n' s'
      | None => None
      end
  end.

(** ** The tempo model in the words of the specification

    Section 4.2 of the specification: the section tempo, unless the next
    section declares [tempoTransitionBars > 0] and the bar is within that
    many bars of the end of its section; then the linear interpolation
    with [progress = (transitionBars - barsFromEnd + 1) / transitionBars]
    and [barsFromEnd = sectionBarCount - barInSection], rounded to the
    nearest integer.  This is the statement [getCurrentTempo] is compared
    with; the server does not contain it. *)
Definition spec_effectiveTempo (sections : list Sect.t)
    (sectionIndex barInSection : Z) : option Z :=
  match index sections sectionIndex with
  | None => None
  | Some current =>
      match index sections (sectionIndex + 1) with
      | None => Some (Sect.tempo current)
      | Some next =>
          let transitionBars := Sect.tempoTransitionBars next in
          let barsFromEnd := len (Sect.bars current) - barInSection in
          if (0 <? transitionBars) && (barsFromEnd <=? transitionBars) then
            let progress :=
              (inject_Z (transitionBars - barsFromEnd + 1)
               / inject_Z transitionBars)%Q in
            let interpolated :=
              (inject_Z (Sect.tempo current)
               + inject_Z (Sect.tempo next - Sect.tempo current) * progress)%Q in
            Some (Qfloor (interpolated + (1 # 2))%Q)
          else Some (Sect.tempo current)
      end
  end.

(** ** Well-formed scores and reachable servers *)

(** A bar number used as a jump target: unset (or zero), or a bar of the
    score. *)
Definition targetOk (total : Z) (o : option Z) : bool :=
  match o with
  | Some z => (z =? 0) || ((1 <=? z) && (z <=? total))
  | None => true
  end.

Definition isEmpty {A : Type} (l : list A) : bool :=
  match l with [] => true | _ => false end.

(** The scores the editor produces: at least one section, no section
    without bars, and every redirect and the loop start inside the
    score. *)
Definition wfScoreb (score : Score.t) : bool :=
  negb (isEmpty (Score.sections score))
  && forallb
       (fun section =>
          negb (isEmpty (Sect.bars section))
          && forallb
               (fun bar => targetOk (totalBars score) (Bar.redirect bar))
               (Sect.bars section))
       (Score.sections score)
  && match Score.loop score with
     | Some l => targetOk (totalBars score) (Loop.start l)
     | None => true
     end.

(** The servers that exist for one score: the constructor's, and what the
    commands and the timers make of them.  Seeks and loop starts stay
    inside the score; bar completion may come at any time. *)
Inductive reachable (score : Score.t) : Server -> Prop :=
| reach_new repeatSong oscEnabled midiEnabled :
    reachable score (newServer score repeatSong oscEnabled midiEnabled)
| reach_midiOutputOpened s :
    reachable score s -> reachable score (midiOutputOpened s)
| reach_registerOnSongEnd s :
    reachable score s -> reachable score (registerOnSongEnd s)
| reach_play now s :
    reachable score s -> reachable score (play now s)
| reach_pause s :
    reachable score s -> reachable score (pause s)
| reach_stopPlayback s :
    reachable score s -> reachable score (stopPlayback s)
| reach_seekToBar now n s :
    reachable score s -> 1 <= n <= totalBars score ->
    reachable score (seekToBar now n s)
| reach_setLoop l s :
    reachable score s ->
    targetOk (totalBars score) (Loop.start l) = true ->
    reachable score (setLoop l s)
| reach_setRepeat repeat s :
    reachable score s -> reachable score (setRepeat repeat s)
| reach_advanceToNextBar now s s' :
    reachable score s -> advanceToNextBar now s = Some s' ->
    reachable score s'
| reach_tick now s s' :
    reachable score s -> tick now s = Some s' -> reachable score s'
| reach_midiPulse s :
    reachable score s -> reachable score (midiPulse s).

(** What holds of every reachable server of a well-formed score. *)
Definition positionInvariant (score : Score.t) (s : Server) : Prop :=
  scoreData s = score
  /\ flatBars s = buildBarStructure score
  /\ validPosition s
  /\ targetOk (totalBars score) (loopStart s) = true.

(** A step that leaves the score, the index and the loop start alone and
    either keeps the position or returns to section 0, bar 0. *)
Definition keeps (s s' : Server) : Prop :=
  scoreData s' = scoreData s
  /\ flatBars s' = flatBars s
  /\ loopStart s' = loopStart s
  /\ ((currentSectionIndex s' = currentSectionIndex s
       /\ currentBarInSection s' = currentBarInSection s)
      \/ (currentSectionIndex s' = 0 /\ currentBarInSection s' = 0)).

(** Proof steps for closed statements about the sample servers. *)
Ltac conjuncts := repeat match goal with |- _ /\ _ => split end.

Ltac by_computation :=
  match goal with |- _ = _ => vm_compute; reflexivity end.

Ltac break_branch :=
  match goal with
  | |- context [if ?b then _ else _] => destruct b eqn:?
  | |- context [match ?x with Some _ => _ | None => _ end] => destruct x eqn:?
  end.

Ltac solve_keeps :=
  unfold keeps; repeat (cbn; break_branch); cbn;
  repeat split; auto.

(** A score without sections. *)
Definition emptyScore : Score.t := Score.mk "empty" 0 None [] None.

Definition emptyServer : Server := newServer emptyScore false false false.

(** The two sections with MIDI enabled and the output open: played,
    moved to bar 3 and paused there. *)
Definition pausedServer : Server :=
  pause (seekToBar 2000 3
           (play 1000 (midiOutputOpened
                         (newServer twoSections false false true)))).

From Stdlib Require Import Qminmax.

(** ** Settings, retiming and the state snapshot *)

Definition set_midi (enabled output : bool) (s : Server) : Server :=
  mkServer (scoreData s) (repeatSong s) (oscEnabled s) (oscClient s)
    (lastTriggeredBar s) enabled output
    (midiClockInterval s) (isPlaying s)
    (inCountoff s) (countoffBarsRemaining s) (currentSectionIndex s)
    (currentBarInSection s) (currentBeat s) (barStartTime s)
    (updateInterval s) (loopEnabled s) (loopStart s) (loopEnd s)
    (flatBars s) (onSongEnd s) (events s).

Definition set_osc (enabled client : bool) (s : Server) : Server :=
  mkServer (scoreData s) (repeatSong s) enabled client
    (lastTriggeredBar s) (midiEnabled s) (midiOutput s)
    (midiClockInterval s) (isPlaying s)
    (inCountoff s) (countoffBarsRemaining s) (currentSectionIndex s)
    (currentBarInSection s) (currentBeat s) (barStartTime s)
    (updateInterval s) (loopEnabled s) (loopStart s) (loopEnd s)
    (flatBars s) (onSongEnd s) (events s).

(** [updateOscSettings] (server.js:185-193) with [setupOscClient]
    (173-183).  [created] says whether [new osc.Client] returned; when it
    raised, the [catch] leaves the client that was there. *)
Definition updateOscSettings (enabled created : bool) (s : Server) : Server :=
  if enabled then set_osc true (created || oscClient s) s
  else if oscClient s then set_osc false false s
  else set_osc false (oscClient s) s.

(** [updateMidiSettings] (server.js:225-235).  [outputPort] says whether
    the port name is not empty; [opened] is the outcome of [openMidiOut],
    and the server is taken when [setupMidiOutput] has finished. *)
Definition updateMidiSettings (enabled outputPort opened : bool)
    (s : Server) : Server :=
  let s := set_midi enabled (midiOutput s) s in
  if enabled && outputPort then set_midi enabled opened s
  else if midiOutput s then
    let s := stopMidiClock s in
    set_midi enabled false s
  else s.

(** [updateMidiClockTempo] (server.js:294-300). *)
Definition updateMidiClockTempo (tempo : Z) (s : Server) : Server :=
  if negb (midiEnabled s) || negb (midiOutput s) || negb (isPlaying s) then s
  else startMidiClock tempo (stopMidiClock s).

(** [stop] (server.js:318-333): pause, then close the OSC client and the
    MIDI output; closing the HTTP server is not modelled. *)
Definition stop (s : Server) : Server :=
  let s := pause s in
  let s := if oscClient s then set_osc (oscEnabled s) false s else s in
  if midiOutput s then
    let s := stopMidiClock s in
    set_midi (midiEnabled s) false s
  else s.

(** The object [getCurrentState] returns (server.js:609-658); the fields
    the stopped form does not have are [None]. *)
Record Snapshot := mkSnapshot {
  snap_isPlaying : bool;
  snap_barNumber : Z;
  snap_beat : Z;
  snap_progress : Q;
  snap_chords : string;
  snap_sectionName : string;
  snap_songName : option string;
  snap_timeSignature : TimeSignature;
  snap_tempo : option Z;
  snap_isCountoff : bool;
  snap_countoffBarsRemaining : option Z;
  snap_accentPattern : option (list Z);
  snap_subdivision : option string
}.

(** Lines 611-620 and 626-635. *)
Definition stoppedSnapshot : Snapshot :=
  mkSnapshot false 1 0 0 "" "" None (mkTimeSignature 4 4) None false
    None None None.

(** [s || d] for a string. *)
Definition orElseS (s d : string) : string :=
  if String.eqb s EmptyString then d else s.

(** [getCurrentState] (server.js:609-658).  [None]: [getCurrentBarInfo]
    raised. *)
Definition getCurrentState (now : Z) (s : Server) : option Snapshot :=
  if negb (isPlaying s) then Some stoppedSnapshot
  else
    match getCurrentBarInfo s with
    | None => None
    | Some None => Some stoppedSnapshot
    | Some (Some barInfo) =>
        let barDuration :=
          getBarDuration s (FlatBar.tempo barInfo)
            (FlatBar.timeSignature barInfo) in
        let elapsed :=
          inject_Z (now - match barStartTime s with
                          | Some t => t
                          | None => 0
                          end) in
        let progress := Qmin (elapsed / barDuration) 1 in
        Some (mkSnapshot true
                (FlatBar.absoluteNumber barInfo)
                (currentBeat s)
                progress
                (FlatBar.chords barInfo)
                (FlatBar.sectionName barInfo)
                (Some (orElseS (Score.name (scoreData s)) "Untitled"))
                (FlatBar.timeSignature barInfo)
                (Some (if FlatBar.tempo barInfo =? 0 then 120
                       else FlatBar.tempo barInfo))
                (inCountoff s)
                (Some (countoffBarsRemaining s))
                (Some (FlatBar.accentPattern barInfo))
                (Some (orElseS (FlatBar.subdivision barInfo) "none")))
    end.

(** ** Every server *)

(** The servers that exist: the constructor's, and what any command, any
    settings change, any score replacement and the timers make of them.
    Nothing is asked of the arguments. *)
Inductive serverState : Server -> Prop :=
| state_new score repeatSong oscEnabled midiEnabled :
    serverState (newServer score repeatSong oscEnabled midiEnabled)
| state_midiOutputOpened s :
    serverState s -> serverState (midiOutputOpened s)
| state_registerOnSongEnd s :
    serverState s -> serverState (registerOnSongEnd s)
| state_play now s : serverState s -> serverState (play now s)
| state_pause s : serverState s -> serverState (pause s)
| state_stopPlayback s : serverState s -> serverState (stopPlayback s)
| state_seekToBar now n s : serverState s -> serverState (seekToBar now n s)
| state_setLoop l s : serverState s -> serverState (setLoop l s)
| state_setRepeat repeat s : serverState s -> serverState (setRepeat repeat s)
| state_updateScore newScoreData s :
    serverState s -> serverState (updateScore newScoreData s)
| state_updateOscSettings enabled created s :
    serverState s -> serverState (updateOscSettings enabled created s)
| state_updateMidiSettings enabled outputPort opened s :
    serverState s ->
    serverState (updateMidiSettings enabled outputPort opened s)
| state_updateMidiClockTempo tempo s :
    serverState s -> serverState (updateMidiClockTempo tempo s)
| state_advanceToNextBar now s s' :
    serverState s -> advanceToNextBar now s = Some s' -> serverState s'
| state_tick now s s' :
    serverState s -> tick now s = Some s' -> serverState s'
| state_midiPulse s : serverState s -> serverState (midiPulse s)
| state_stop s : serverState s -> serverState (stop s).

(** What every server keeps: the index is the one of the score, the
    60 Hz timer is set exactly while playing, the MIDI pulse timer only
    while playing, and a countoff has at least one bar left. *)
Definition serverInvariant (s : Server) : Prop :=
  flatBars s = buildBarStructure (scoreData s)
  /\ updateInterval s = isPlaying s
  /\ (isPlaying s = false -> midiClockInterval s = None)
  /\ (inCountoff s = true -> 1 <= countoffBarsRemaining s).

(** The MIDI bytes and the OSC messages in a log. *)
Definition isMidi (e : Event) : bool :=
  match e with MidiSend _ => true | _ => false end.

Definition isOsc (e : Event) : bool :=
  match e with OscSend _ _ => true | _ => false end.

(** ** More sample servers *)

(** A countoff of two bars in front of the two sections. *)
Definition countoffScore : Score.t :=
  Score.mk "countoff" 2 None (Score.sections twoSections) None.

Definition countoffServer : Server :=
  play 0 (newServer countoffScore false false false).

(** The two sections with [repeatSong], playing on the last bar. *)
Definition repeatOnLastBar : Server :=
  seekToBar 0 5
    (play 0 (registerOnSongEnd (newServer twoSections true false false))).

(** The two sections, playing on bar 2. *)
Definition playingOnBarTwo : Server :=
  seekToBar 0 2 (play 0 (newServer twoSections false false false)).

(** A bar with an OSC trigger, alone in its section, with OSC enabled. *)
Definition oscBar : Bar.t :=
  Bar.mk "" None None false None None None None (Some "/cue"%string) (Some "1"%string).

Definition oscScore : Score.t :=
  Score.mk "osc" 0 None [ Sect.mk "A" 120 fourFour 0 [oscBar; plainBar] ] None.

Definition oscServer : Server := play 0 (newServer oscScore false true false).


(** The loop over bars 2 to 4, playing on bar 3. *)
Definition loopOnBarThree : Server :=
  seekToBar 0 3 (play 0 (newServer loopScore false false false)).

(** Closed comparisons between numbers of the sample servers. *)
Ltac by_comparison := vm_compute; conjuncts; discriminate.

(** A step that leaves the score, the index, the playing flag and both
    timers alone, and does not enter a countoff. *)
Definition sameControl (s s' : Server) : Prop :=
  scoreData s' = scoreData s
  /\ flatBars s' = flatBars s
  /\ isPlaying s' = isPlaying s
  /\ updateInterval s' = updateInterval s
  /\ midiClockInterval s' = midiClockInterval s
  /\ (inCountoff s' = true ->
      inCountoff s = true
      /\ countoffBarsRemaining s' = countoffBarsRemaining s).

Ltac solve_sameControl :=
  unfold sameControl; repeat (cbn; break_branch); cbn;
  conjuncts; auto; try (intros; discriminate).

(** The paused server after its score was replaced by the score of the
    redirect example. *)
Definition editedWhilePaused : Server := updateScore redirectScore pausedServer.

(** The two sections, played at time 1000 and moved to bar 2 at time
    4000. *)
Definition resumable : Server :=
  seekToBar 4000 2 (play 1000 (newServer twoSections false false false)).

(** The MIDI bytes and the OSC messages a server has sent. *)
Definition midiLog (s : Server) : list Event := filter isMidi (events s).

Definition oscLog (s : Server) : list Event := filter isOsc (events s).

(** A step that sends no MIDI byte and keeps the output as it is. *)
Definition midiQuiet (s s' : Server) : Prop :=
  midiOutput s' = midiOutput s /\ midiLog s' = midiLog s.

(** A step that sends no OSC message and keeps the OSC settings. *)
Definition oscQuiet (s s' : Server) : Prop :=
  oscEnabled s' = oscEnabled s
  /\ oscClient s' = oscClient s
  /\ oscLog s' = oscLog s.

Ltac solve_quiet Ho :=
  unfold midiQuiet, oscQuiet, midiLog, oscLog;
  repeat (cbn; rewrite ?Ho; break_branch); cbn;
  rewrite ?filter_app; cbn; rewrite ?app_nil_r; conjuncts; auto;
  try congruence.

(** ** The quantities of a timer tick (server.js:486-497) *)

(** [now - this.barStartTime]; [null] counts as 0. *)
Definition elapsedSince (now : Z) (s : Server) : Q :=
  inject_Z (now - match barStartTime s with
                  | Some t => t
                  | None => 0
                  end).

Definition beatDurationOf (s : Server) (barInfo : FlatBar.t) : Q :=
  (barDurationOf s barInfo
   / inject_Z (beats (FlatBar.timeSignature barInfo)))%Q.

Definition newBeatOf (now : Z) (s : Server) (barInfo : FlatBar.t) : Z :=
  Qfloor (elapsedSince now s / beatDurationOf s barInfo).


(** The timer firing at the given times, one after the other; [None] as
    soon as one callback raises. *)
Fixpoint ticks (times : list Z) (s : Server) : option Server :=
  match times with
  | [] => Some s
  | now :: rest =>
      match tick now s with
      | Some s' => ticks rest s'
      | None => None
      end
  end.





(** The times at which the bar [barInfo] of [s] is not over. *)
Definition withinBar (s : Server) (barInfo : FlatBar.t) (now : Z) : Prop :=
  (elapsedSince now s < barDurationOf s barInfo)%Q.

(** A step that stays on the bar: position, score, start time, playing
    flag and OSC settings are kept. *)
Definition sameBar (s s' : Server) : Prop :=
  isPlaying s' = isPlaying s
  /\ inCountoff s' = inCountoff s
  /\ scoreData s' = scoreData s
  /\ flatBars s' = flatBars s
  /\ currentSectionIndex s' = currentSectionIndex s
  /\ currentBarInSection s' = currentBarInSection s
  /\ barStartTime s' = barStartTime s
  /\ oscEnabled s' = oscEnabled s
  /\ oscClient s' = oscClient s.

(** The first bar of [oscScore] in the index. *)
Definition oscInfo : FlatBar.t :=
  FlatBar.mk 1 0 0 "A" 120 fourFour "" None [] "none"
    (Some "/cue"%string) (Some "1"%string).




(** The two sections, playing on bar 3, the first bar of section B. *)
Definition playingOnBarThree : Server :=
  seekToBar 0 3 (play 0 (newServer twoSections false false false)).

(** A server that was never played, with a countoff and no section. *)
Definition countoffOnly : Server :=
  newServer (Score.mk "countoff only" 2 None [] None) false false false.
(** * Properties *)

Lemma len_nonneg {A : Type} (l : list A) : 0 <= len l.
Proof. unfold len. lia. Qed.

Lemma len_cons {A : Type} (x : A) (l : list A) : len (x :: l) = 1 + len l.
Proof. unfold len. cbn [List.length]. lia. Qed.

Lemma len_app {A : Type} (l1 l2 : list A) : len (l1 ++ l2) = len l1 + len l2.
Proof. unfold len. rewrite length_app. lia. Qed.

Lemma sumBars_nonneg sections : 0 <= sumBars sections.
Proof.
  induction sections as [|sec rest IH]; cbn [sumBars]; [lia|].
  pose proof (len_nonneg (Sect.bars sec)). lia.
Qed.

Lemma validPositionb_spec s : validPositionb s = true <-> validPosition s.
Proof.
  unfold validPositionb, validPosition. split.
  - destruct (index _ _) as [sec|]; [|discriminate].
    intros H. apply andb_true_iff in H. destruct H as [H1 H2].
    exists sec. split; [reflexivity|]. lia.
  - intros [sec [-> H]]. apply andb_true_iff. split; lia.
Qed.

Lemma forEachBar_eq section si bars :
  forall bi flat abs,
    forEachBar section si bars bi flat abs
    = (flat ++ flatOfBars section si bars bi abs, abs + len bars).
Proof.
  induction bars as [|bar rest IH]; intros bi flat abs.
  - cbn. rewrite app_nil_r. f_equal. unfold len. cbn. lia.
  - cbn [forEachBar flatOfBars]. rewrite IH, <- app_assoc. cbn [app].
    f_equal. rewrite len_cons. lia.
Qed.

Lemma forEachSection_eq sections :
  forall si flat abs,
    forEachSection sections si flat abs
    = (flat ++ flatOfSections sections si abs, abs + sumBars sections).
Proof.
  induction sections as [|sec rest IH]; intros si flat abs.
  - cbn. rewrite app_nil_r. f_equal. lia.
  - cbn [forEachSection flatOfSections sumBars].
    rewrite forEachBar_eq, IH, <- app_assoc. f_equal. lia.
Qed.

Lemma buildBarStructure_eq score :
  buildBarStructure score = flatOfSections (Score.sections score) 0 1.
Proof. unfold buildBarStructure. rewrite forEachSection_eq. reflexivity. Qed.

Lemma len_flatOfBars section si bars :
  forall bi abs, len (flatOfBars section si bars bi abs) = len bars.
Proof.
  induction bars as [|bar rest IH]; intros bi abs; [reflexivity|].
  cbn [flatOfBars]. rewrite !len_cons, IH. reflexivity.
Qed.

Lemma len_flatOfSections sections :
  forall si abs, len (flatOfSections sections si abs) = sumBars sections.
Proof.
  induction sections as [|sec rest IH]; intros si abs; [reflexivity|].
  cbn [flatOfSections sumBars]. rewrite len_app, len_flatOfBars, IH.
  reflexivity.
Qed.

(** [totalBars] is the number of bars of all sections. *)
Lemma totalBars_sum score : totalBars score = sumBars (Score.sections score).
Proof.
  unfold totalBars. rewrite buildBarStructure_eq. apply len_flatOfSections.
Qed.

(** ** Seeking *)

Lemma index_of_nat {A : Type} (l : list A) (k : nat) :
  index l (Z.of_nat k) = nth_error l k.
Proof.
  unfold index. destruct (Z.ltb_spec (Z.of_nat k) 0); [lia|].
  rewrite Nat2Z.id. reflexivity.
Qed.

Lemma index_Some_range {A : Type} (l : list A) (i : Z) (x : A) :
  index l i = Some x -> 0 <= i < len l.
Proof.
  unfold index, len. destruct (Z.ltb_spec i 0) as [Hneg|Hpos]; [discriminate|].
  intros H. assert (Hn : nth_error l (Z.to_nat i) <> None) by congruence.
  apply nth_error_Some in Hn. lia.
Qed.

(** Inside the score the loop of [seekToBar] leaves at a [break]: in a
    section [k] that exists, with [remaining] inside that section and the
    bars of the sections before [k] subtracted. *)
Lemma seekLoop_in_range sections :
  forall remaining si0,
    1 <= remaining <= sumBars sections ->
    exists (k : nat) section r,
      seekLoop sections remaining si0 = (r, si0 + Z.of_nat k)
      /\ nth_error sections k = Some section
      /\ barsBefore sections k = Some (remaining - r)
      /\ 1 <= r <= len (Sect.bars section).
Proof.
  induction sections as [|sec rest IH]; intros remaining si0 Hr.
  - cbn [sumBars] in Hr. lia.
  - cbn [seekLoop sumBars] in *.
    destruct (Z.leb_spec remaining (len (Sect.bars sec))) as [Hle|Hgt].
    + exists 0%nat, sec, remaining. cbn. repeat split; try lia.
      * f_equal. lia.
      * f_equal. lia.
    + destruct (IH (remaining - len (Sect.bars sec)) (si0 + 1))
        as (k & section & r & Hloop & Hnth & Hbefore & Hin); [lia|].
      exists (S k), section, r. cbn [nth_error barsBefore].
      rewrite Hloop, Hbefore. repeat split; try lia; try assumption.
      * f_equal. lia.
      * f_equal. lia.
Qed.

(** The fields [seekToBar] writes and those it keeps. *)
Lemma seekToBar_fields now n s :
  currentSectionIndex (seekToBar now n s)
  = Z.min (snd (seekLoop (Score.sections (scoreData s)) n 0))
      (len (Score.sections (scoreData s)) - 1)
  /\ currentBarInSection (seekToBar now n s)
     = fst (seekLoop (Score.sections (scoreData s)) n 0) - 1
  /\ inCountoff (seekToBar now n s) = false
  /\ currentBeat (seekToBar now n s) = 0
  /\ barStartTime (seekToBar now n s) = Some now
  /\ scoreData (seekToBar now n s) = scoreData s
  /\ flatBars (seekToBar now n s) = flatBars s
  /\ isPlaying (seekToBar now n s) = isPlaying s
  /\ lastTriggeredBar (seekToBar now n s) = lastTriggeredBar s
  /\ events (seekToBar now n s) = events s ++ [IoEmit "state-update"].
Proof.
  unfold seekToBar. destruct (seekLoop _ n 0) as [r i]. cbn.
  repeat split; reflexivity.
Qed.

Lemma nth_error_len {A : Type} (l : list A) (k : nat) (x : A) :
  nth_error l k = Some x -> Z.of_nat k < len l.
Proof.
  intros H. assert (Hn : nth_error l k <> None) by congruence.
  apply nth_error_Some in Hn. unfold len. lia.
Qed.

(** A seek inside the score lands in an existing section [k], on the
    offset [r - 1] of a bar of that section, with [n - r] bars in the
    sections before it. *)
Lemma seekToBar_lands now s n :
  1 <= n <= totalBars (scoreData s) ->
  exists (k : nat) section r,
    currentSectionIndex (seekToBar now n s) = Z.of_nat k
    /\ currentBarInSection (seekToBar now n s) = r - 1
    /\ nth_error (Score.sections (scoreData s)) k = Some section
    /\ barsBefore (Score.sections (scoreData s)) k = Some (n - r)
    /\ 1 <= r <= len (Sect.bars section).
Proof.
  intros Hn. rewrite totalBars_sum in Hn.
  destruct (seekLoop_in_range _ n 0 Hn)
    as (k & section & r & Hloop & Hnth & Hbefore & Hin).
  destruct (seekToBar_fields now n s) as (Hsi & Hbi & _).
  exists k, section, r. rewrite Hsi, Hbi, Hloop. cbn [fst snd].
  pose proof (nth_error_len _ _ _ Hnth) as Hk.
  repeat split; try assumption; lia.
Qed.

(** The absolute bar number of a position whose section exists. *)
Lemma absolute_of_position s (k : nat) before :
  inCountoff s = false ->
  currentSectionIndex s = Z.of_nat k ->
  barsBefore (Score.sections (scoreData s)) k = Some before ->
  getAbsoluteBarNumber s = Some (1 + before + currentBarInSection s).
Proof.
  intros Hco Hsi Hb. unfold getAbsoluteBarNumber.
  rewrite Hco, Hsi, Nat2Z.id, Hb. reflexivity.
Qed.

(** C10: for every score and every n with 1 <= n <= totalBars,
    [seekToBar(n)] clears the countoff and [getAbsoluteBarNumber()] then
    returns n. *)
Theorem seekToBar_getAbsoluteBarNumber now s n :
  1 <= n <= totalBars (scoreData s) ->
  inCountoff (seekToBar now n s) = false
  /\ getAbsoluteBarNumber (seekToBar now n s) = Some n.
Proof.
  intros Hn.
  destruct (seekToBar_lands now s n Hn)
    as (k & section & r & Hsi & Hbi & Hnth & Hbefore & Hin).
  destruct (seekToBar_fields now n s) as (_ & _ & Hco & _ & _ & Hsd & _).
  split; [exact Hco|].
  rewrite (absolute_of_position _ k (n - r) Hco Hsi)
    by (rewrite Hsd; exact Hbefore).
  rewrite Hbi. f_equal. lia.
Qed.

Lemma seekToBar_getAbsoluteBarNumber_witness :
  1 <= 4 <= totalBars (scoreData twoSectionsServer)
  /\ inCountoff (seekToBar 1000 4 twoSectionsServer) = false
  /\ getAbsoluteBarNumber (seekToBar 1000 4 twoSectionsServer) = Some 4.
Proof.
  split; [vm_compute; split; discriminate|].
  apply (seekToBar_getAbsoluteBarNumber 1000 twoSectionsServer 4).
  vm_compute. split; discriminate.
Defined.

(** ** Bar durations *)






(** ** Looking a bar up in the index *)

Lemma index_nil {A : Type} (i : Z) : index (@nil A) i = None.
Proof.
  unfold index. destruct (i <? 0); [reflexivity|].
  destruct (Z.to_nat i); reflexivity.
Qed.

Lemma index_cons_0 {A : Type} (x : A) (l : list A) : index (x :: l) 0 = Some x.
Proof. reflexivity. Qed.

Lemma index_cons_succ {A : Type} (x : A) (l : list A) (i : Z) :
  0 <= i -> index (x :: l) (1 + i) = index l i.
Proof.
  intros Hi. unfold index.
  destruct (Z.ltb_spec (1 + i) 0); [lia|].
  destruct (Z.ltb_spec i 0); [lia|].
  replace (Z.to_nat (1 + i)) with (S (Z.to_nat i)) by lia. reflexivity.
Qed.

Lemma index_app_l {A : Type} (l1 l2 : list A) (i : Z) (x : A) :
  index l1 i = Some x -> index (l1 ++ l2) i = Some x.
Proof.
  unfold index. destruct (i <? 0); [discriminate|]. intros H.
  rewrite nth_error_app1; [exact H|].
  apply nth_error_Some. congruence.
Qed.

Lemma index_app_r {A : Type} (l1 l2 : list A) (i : Z) :
  0 <= i -> index (l1 ++ l2) (len l1 + i) = index l2 i.
Proof.
  intros Hi. unfold index, len.
  destruct (Z.ltb_spec (Z.of_nat (List.length l1) + i) 0); [lia|].
  destruct (Z.ltb_spec i 0); [lia|].
  rewrite nth_error_app2 by lia. f_equal. lia.
Qed.

Lemma flatOfBars_index section si bars :
  forall bi0 abs0 j bar,
    index bars j = Some bar ->
    index (flatOfBars section si bars bi0 abs0) j
    = Some (flatBarOf section si bar (bi0 + j) (abs0 + j)).
Proof.
  induction bars as [|b rest IH]; intros bi0 abs0 j bar Hj.
  - rewrite index_nil in Hj. discriminate.
  - pose proof (index_Some_range _ _ _ Hj) as Hr.
    destruct (Z.eq_dec j 0) as [->|Hne].
    + cbn in Hj. injection Hj as ->. cbn [flatOfBars].
      rewrite index_cons_0, !Z.add_0_r. reflexivity.
    + replace j with (1 + (j - 1)) in Hj |- * by lia.
      rewrite index_cons_succ in Hj by lia. cbn [flatOfBars].
      rewrite index_cons_succ by lia.
      rewrite (IH (bi0 + 1) (abs0 + 1) (j - 1) bar Hj).
      f_equal. f_equal; lia.
Qed.

(** Bar [j] of section [k] is the entry [before + j] of the index, where
    [before] counts the bars of the sections in front of [k]; the entry
    carries the section's tempo and time signature and the number
    [1 + before + j]. *)
Lemma flatOfSections_index sections :
  forall si0 abs0 (k : nat) section j bar before,
    nth_error sections k = Some section ->
    index (Sect.bars section) j = Some bar ->
    barsBefore sections k = Some before ->
    index (flatOfSections sections si0 abs0) (before + j)
    = Some (flatBarOf section (si0 + Z.of_nat k) bar j (abs0 + before + j)).
Proof.
  induction sections as [|sec rest IH];
    intros si0 abs0 k section j bar before Hk Hj Hb.
  - destruct k; discriminate.
  - pose proof (index_Some_range _ _ _ Hj) as Hr.
    destruct k as [|k]; cbn [nth_error barsBefore flatOfSections] in *.
    + injection Hk as ->. injection Hb as <-.
      rewrite Z.add_0_l. apply index_app_l.
      rewrite (flatOfBars_index _ _ _ 0 abs0 j bar Hj).
      f_equal. f_equal; lia.
    + destruct (barsBefore rest k) as [b'|] eqn:Hb'; [|discriminate].
      injection Hb as <-.
      assert (Hb0 : 0 <= b').
      { clear -Hb'. revert k b' Hb'.
        induction rest as [|s r IHr]; intros [|k] b' H; cbn in H;
          try discriminate; try (injection H as <-; lia).
        destruct (barsBefore r k) as [c|] eqn:Hc; [|discriminate].
        injection H as <-. pose proof (len_nonneg (Sect.bars s)).
        specialize (IHr k c Hc). lia. }
      rewrite <- (len_flatOfBars sec si0 (Sect.bars sec) 0 abs0).
      rewrite <- Z.add_assoc, index_app_r by lia.
      rewrite (IH (si0 + 1) _ k section j bar b' Hk Hj Hb').
      rewrite len_flatOfBars. f_equal. f_equal; lia.
Qed.

Lemma barsBefore_Some sections :
  forall (k : nat) section,
    nth_error sections k = Some section ->
    exists before,
      barsBefore sections k = Some before
      /\ 0 <= before
      /\ before + len (Sect.bars section) <= sumBars sections.
Proof.
  induction sections as [|sec rest IH]; intros k section Hk.
  - destruct k; discriminate.
  - destruct k as [|k]; cbn [nth_error barsBefore sumBars] in *.
    + injection Hk as ->. exists 0. pose proof (sumBars_nonneg rest).
      repeat split; lia.
    + destruct (IH k section Hk) as (b & -> & Hb0 & Hb).
      exists (len (Sect.bars sec) + b).
      pose proof (len_nonneg (Sect.bars sec)). repeat split; lia.
Qed.

Lemma index_Some_nth {A : Type} (l : list A) (i : Z) (x : A) :
  index l i = Some x -> nth_error l (Z.to_nat i) = Some x /\ 0 <= i.
Proof.
  unfold index. destruct (Z.ltb_spec i 0); [discriminate|]. auto.
Qed.

(** At a valid position outside the countoff the current bar is found,
    and it carries the tempo and time signature of its section.  The
    first hypothesis says that the server's index is the one built from
    its score: the constructor and [updateScore] establish it and no
    other method writes either field. *)
Lemma current_bar_lookup s section bar :
  flatBars s = buildBarStructure (scoreData s) ->
  inCountoff s = false ->
  index (Score.sections (scoreData s)) (currentSectionIndex s)
    = Some section ->
  index (Sect.bars section) (currentBarInSection s) = Some bar ->
  exists before,
    barsBefore (Score.sections (scoreData s))
      (Z.to_nat (currentSectionIndex s)) = Some before
    /\ 0 <= before
    /\ before + len (Sect.bars section)
       <= sumBars (Score.sections (scoreData s))
    /\ getAbsoluteBarNumber s = Some (1 + before + currentBarInSection s)
    /\ index (flatBars s) (1 + before + currentBarInSection s - 1)
       = Some (flatBarOf section (currentSectionIndex s) bar
                 (currentBarInSection s)
                 (1 + before + currentBarInSection s))
    /\ getCurrentBarInfo s
       = Some (Some (flatBarOf section (currentSectionIndex s) bar
                       (currentBarInSection s)
                       (1 + before + currentBarInSection s))).
Proof.
  intros Hflat Hco Hsec Hbar.
  destruct (index_Some_nth _ _ _ Hsec) as [Hnth Hsi].
  destruct (barsBefore_Some _ _ _ Hnth) as (before & Hb & Hb0 & Hble).
  exists before.
  assert (Hidx : index (flatBars s) (1 + before + currentBarInSection s - 1)
                 = Some (flatBarOf section (currentSectionIndex s) bar
                           (currentBarInSection s)
                           (1 + before + currentBarInSection s))).
  { rewrite Hflat, buildBarStructure_eq.
    replace (1 + before + currentBarInSection s - 1)
      with (before + currentBarInSection s) by lia.
    rewrite (flatOfSections_index _ 0 1 _ _ _ _ _ Hnth Hbar Hb).
    f_equal. f_equal; lia. }
  repeat split; try assumption.
  - unfold getAbsoluteBarNumber. rewrite Hco, Hb. reflexivity.
  - unfold getCurrentBarInfo, getAbsoluteBarNumber. rewrite Hco, Hb, Hidx.
    reflexivity.
Qed.

(** ** Fermata bars *)


(** The duration of the bar being played, whatever the bar's fields. *)
Lemma barDurationOf_current s section bar :
  flatBars s = buildBarStructure (scoreData s) ->
  inCountoff s = false ->
  index (Score.sections (scoreData s)) (currentSectionIndex s)
    = Some section ->
  index (Sect.bars section) (currentBarInSection s) = Some bar ->
  exists barInfo,
    getCurrentBarInfo s = Some (Some barInfo)
    /\ FlatBar.tempo barInfo = Sect.tempo section
    /\ FlatBar.timeSignature barInfo = Sect.timeSignature section
    /\ barDurationOf s barInfo
       = getBarDuration s (Sect.tempo section) (Sect.timeSignature section).
Proof.
  intros Hflat Hco Hsec Hbar.
  destruct (current_bar_lookup s section bar Hflat Hco Hsec Hbar)
    as (before & _ & _ & _ & _ & _ & Hinfo).
  eexists. split; [exact Hinfo|]. repeat split.
Qed.



(** ** Tempo *)

(** C4, as stated, fails: on the last bar of a section whose successor
    asks for a transition over two bars, the tempo is the section's own
    100 BPM, not the successor's 200 BPM. *)
Lemma tempo_transition_counterexample :
  inCountoff lastBarOfA = false
  /\ currentSectionIndex lastBarOfA = 0
  /\ currentBarInSection lastBarOfA = 1
  /\ index (Score.sections (scoreData lastBarOfA)) 0
     = Some (Sect.mk "A" 100 fourFour 0 [plainBar; plainBar])
  /\ index (Score.sections (scoreData lastBarOfA)) 1
     = Some (Sect.mk "B" 200 fourFour 2 [plainBar; plainBar; plainBar])
  /\ spec_effectiveTempo (Score.sections (scoreData lastBarOfA))
       (currentSectionIndex lastBarOfA) (currentBarInSection lastBarOfA) = Some 200
  /\ getCurrentTempo lastBarOfA = 100
  /\ exists barInfo,
       getCurrentBarInfo lastBarOfA = Some (Some barInfo)
       /\ FlatBar.tempo barInfo = 100.
Proof.
  conjuncts; try by_computation.
  eexists. split; by_computation.
Qed.

(** C4, amended: outside the countoff the tempo at a position is the
    declared tempo of its section, on every bar of the section and
    whatever [tempoTransitionBars] the next section declares; this holds
    for the tempo of the MIDI clock and for the one the bar durations are
    computed from. *)
Theorem tempo_is_section_tempo s section bar :
  flatBars s = buildBarStructure (scoreData s) ->
  inCountoff s = false ->
  index (Score.sections (scoreData s)) (currentSectionIndex s)
    = Some section ->
  index (Sect.bars section) (currentBarInSection s) = Some bar ->
  Sect.tempo section <> 0 ->
  getCurrentTempo s = Sect.tempo section
  /\ exists barInfo,
       getCurrentBarInfo s = Some (Some barInfo)
       /\ FlatBar.tempo barInfo = Sect.tempo section.
Proof.
  intros Hflat Hco Hsec Hbar Ht. split.
  - unfold getCurrentTempo. rewrite Hco, Hsec. unfold tempoOr120.
    destruct (Z.eqb_spec (Sect.tempo section) 0); [contradiction|reflexivity].
  - destruct (barDurationOf_current s section bar Hflat Hco Hsec Hbar)
      as (barInfo & Hinfo & Htempo & _).
    exists barInfo. split; assumption.
Qed.

Lemma tempo_is_section_tempo_witness :
  getCurrentTempo lastBarOfA = 100
  /\ exists barInfo,
       getCurrentBarInfo lastBarOfA
         = Some (Some barInfo)
       /\ FlatBar.tempo barInfo = 100.
Proof.
  apply (tempo_is_section_tempo lastBarOfA
           (Sect.mk "A" 100 fourFour 0 [plainBar; plainBar]) plainBar);
    try reflexivity.
  discriminate.
Defined.

(** ** Stopping *)


Lemma stopPlayback_fields s :
  isPlaying (stopPlayback s) = false
  /\ inCountoff (stopPlayback s) = false
  /\ currentSectionIndex (stopPlayback s) = 0
  /\ currentBarInSection (stopPlayback s) = 0
  /\ barStartTime (stopPlayback s) = None
  /\ lastTriggeredBar (stopPlayback s) = -1
  /\ updateInterval (stopPlayback s) = false
  /\ scoreData (stopPlayback s) = scoreData s
  /\ flatBars (stopPlayback s) = flatBars s
  /\ events (stopPlayback s)
     = events s ++ (if midiOutput s then [MidiSend 0xFC] else [])
       ++ [IoEmit "playback-stopped"].
Proof.
  unfold stopPlayback, stopMidiClock. cbn.
  destruct (midiClockInterval s) eqn:Hi; cbn;
    destruct (midiOutput s) eqn:Ho; cbn;
    rewrite ?Ho, ?Hi; cbn; rewrite <- ?app_assoc; repeat split; reflexivity.
Qed.

(** A stopped or paused server ignores the timer. *)
Lemma tick_not_playing now s : isPlaying s = false -> tick now s = Some s.
Proof. intros H. unfold tick. rewrite H. reflexivity. Qed.

(** ** Redirects *)

(** C1, as stated, fails: bar 2 redirects to bar 1 with [redirectCount] 1;
    after the one jump and the return to bar 2, bar completion jumps to
    bar 1 again instead of advancing normally (which here would end the
    song). *)
Lemma redirect_count_counterexample :
  index (Score.sections (scoreData redirectOnBarTwo)) 0
    = Some (Sect.mk "A" 120 fourFour 0 [plainBar; redirectBar])
  /\ Bar.redirect redirectBar = Some 1
  /\ Bar.redirectCount redirectBar = Some 1
  /\ getAbsoluteBarNumber redirectOnBarTwo = Some 2
  /\ advanceToNextBar 1 redirectOnBarTwo
     = Some (seekToBar 1 1 redirectOnBarTwo)
  /\ exists s,
       advanceMany 1 2 redirectOnBarTwo = Some s
       /\ getAbsoluteBarNumber s = Some 2
       /\ advanceToNextBar 1 s = Some (seekToBar 1 1 s)
       /\ plainAdvance 1 s = Some (stopPlayback s)
       /\ advanceToNextBar 1 s <> plainAdvance 1 s.
Proof.
  conjuncts; try by_computation.
  eexists. split; [by_computation|].
  conjuncts; try by_computation.
  intros H. apply (f_equal (option_map isPlaying)) in H.
  vm_compute in H. discriminate.
Qed.

Lemma redirectOf_flatBarOf section si bar bi abs target :
  Bar.redirect bar = Some target -> target <> 0 ->
  redirectOf (Some (flatBarOf section si bar bi abs)) = Some target.
Proof.
  intros Hr Ht. unfold redirectOf, flatBarOf, orNull, truthy. cbn.
  rewrite Hr. destruct (Z.eqb_spec target 0); [contradiction|reflexivity].
Qed.

(** C1, amended: on a bar whose [redirect] is a (non-zero) target bar,
    every bar completion outside the countoff is the jump
    [seekToBar(target)], whatever [redirectCount] is; the jump leaves the
    score and the index as they are and the server keeps no counter, so
    the same holds at every later completion on that bar. *)
Theorem redirect_always_jumps now s section bar target :
  flatBars s = buildBarStructure (scoreData s) ->
  inCountoff s = false ->
  index (Score.sections (scoreData s)) (currentSectionIndex s)
    = Some section ->
  index (Sect.bars section) (currentBarInSection s) = Some bar ->
  Bar.redirect bar = Some target ->
  target <> 0 ->
  advanceToNextBar now s = Some (seekToBar now target s)
  /\ scoreData (seekToBar now target s) = scoreData s
  /\ flatBars (seekToBar now target s) = flatBars s
  /\ inCountoff (seekToBar now target s) = false.
Proof.
  intros Hflat Hco Hsec Hbar Hr Ht.
  destruct (current_bar_lookup s section bar Hflat Hco Hsec Hbar)
    as (before & _ & _ & _ & Habs & Hidx & _).
  destruct (seekToBar_fields now target s)
    as (_ & _ & Hco' & _ & _ & Hsd & Hfb & _).
  repeat split; try assumption.
  unfold advanceToNextBar. rewrite Hco, Habs, Hidx.
  rewrite (redirectOf_flatBarOf _ _ _ _ _ target Hr Ht). reflexivity.
Qed.

Lemma redirect_always_jumps_witness :
  advanceToNextBar 1 redirectOnBarTwo = Some (seekToBar 1 1 redirectOnBarTwo)
  /\ scoreData (seekToBar 1 1 redirectOnBarTwo) = scoreData redirectOnBarTwo
  /\ flatBars (seekToBar 1 1 redirectOnBarTwo) = flatBars redirectOnBarTwo
  /\ inCountoff (seekToBar 1 1 redirectOnBarTwo) = false.
Proof.
  apply (redirect_always_jumps 1 redirectOnBarTwo
           (Sect.mk "A" 120 fourFour 0 [plainBar; redirectBar]) redirectBar 1);
    try reflexivity.
  discriminate.
Defined.

(** ** The song loop *)



(** ** The end of the song *)

Lemma nth_le_sumBars sections :
  forall (k : nat) section,
    nth_error sections k = Some section ->
    len (Sect.bars section) <= sumBars sections.
Proof.
  intros k section Hk.
  destruct (barsBefore_Some _ _ _ Hk) as (b & _ & Hb0 & Hb). lia.
Qed.

(** Two different sections both count in the total. *)
Lemma two_sections_sumBars sections :
  forall (k k' : nat) section section' before,
    nth_error sections k = Some section ->
    nth_error sections k' = Some section' ->
    (k < k')%nat ->
    barsBefore sections k = Some before ->
    before + len (Sect.bars section) + len (Sect.bars section')
    <= sumBars sections.
Proof.
  induction sections as [|sec rest IH];
    intros k k' section section' before Hk Hk' Hlt Hb.
  - destruct k; discriminate.
  - destruct k' as [|k']; [lia|].
    destruct k as [|k]; cbn [nth_error barsBefore sumBars] in *.
    + injection Hk as ->. injection Hb as <-.
      pose proof (nth_le_sumBars _ _ _ Hk'). lia.
    + destruct (barsBefore rest k) as [b|] eqn:Hb'; [|discriminate].
      injection Hb as <-.
      pose proof (IH k k' section section' b Hk Hk' ltac:(lia) Hb'). lia.
Qed.

(** On bar N of a score whose last section is not empty, the position is
    the last bar of the last section. *)
Lemma on_last_bar s section bar lastSection :
  flatBars s = buildBarStructure (scoreData s) ->
  inCountoff s = false ->
  index (Score.sections (scoreData s)) (currentSectionIndex s)
    = Some section ->
  index (Sect.bars section) (currentBarInSection s) = Some bar ->
  getAbsoluteBarNumber s = Some (totalBars (scoreData s)) ->
  index (Score.sections (scoreData s))
    (len (Score.sections (scoreData s)) - 1) = Some lastSection ->
  Sect.bars lastSection <> [] ->
  currentSectionIndex s = len (Score.sections (scoreData s)) - 1
  /\ currentBarInSection s = len (Sect.bars section) - 1.
Proof.
  intros Hflat Hco Hsec Hbar Habs Hlast Hne.
  destruct (current_bar_lookup s section bar Hflat Hco Hsec Hbar)
    as (before & Hb & Hb0 & Hble & Habs' & _).
  assert (Htot : 1 + before + currentBarInSection s
                 = sumBars (Score.sections (scoreData s)))
    by (rewrite <- totalBars_sum; congruence).
  pose proof (index_Some_range _ _ _ Hbar) as Hbi.
  pose proof (index_Some_range _ _ _ Hsec) as Hsi.
  destruct (index_Some_nth _ _ _ Hsec) as [Hnth _].
  destruct (index_Some_nth _ _ _ Hlast) as [Hnth' _].
  assert (Hlen : 0 < len (Sect.bars lastSection)).
  { destruct (Sect.bars lastSection); [contradiction|].
    rewrite len_cons. pose proof (len_nonneg l). lia. }
  split; [|lia].
  destruct (Z.eq_dec (currentSectionIndex s)
              (len (Score.sections (scoreData s)) - 1)) as [|Hneq];
    [assumption|exfalso].
  pose proof (two_sections_sumBars _ _ _ _ _ _ Hnth Hnth' ltac:(lia) Hb).
  lia.
Qed.

(** C2, as stated, fails when the last section of the score has no bars:
    on bar N = 1 of such a score, with a song-end callback registered,
    bar completion moves into the empty section; the server keeps playing,
    reports bar 2 > N and does not call the callback.  It is the next
    timer tick that stops it, still without the callback. *)
Lemma song_end_counterexample :
  totalBars (scoreData trailingEmptyServer) = 1
  /\ repeatSong trailingEmptyServer = false
  /\ loopEnabled trailingEmptyServer = false
  /\ onSongEnd trailingEmptyServer = true
  /\ inCountoff trailingEmptyServer = false
  /\ getAbsoluteBarNumber trailingEmptyServer = Some 1
  /\ getCurrentBarInfo trailingEmptyServer
     = Some (Some (flatBarOf (Sect.mk "A" 120 fourFour 0 [plainBar]) 0
                     plainBar 0 1))
  /\ exists s',
       advanceToNextBar 1 trailingEmptyServer = Some s'
       /\ isPlaying s' = true
       /\ getAbsoluteBarNumber s' = Some 2
       /\ events s' = events trailingEmptyServer
       /\ tick 2 s' = Some (stopPlayback s')
       /\ ~ In SongEnd (events (stopPlayback s')).
Proof.
  conjuncts; try by_computation.
  eexists. split; [by_computation|]. conjuncts; try by_computation.
  vm_compute. intros [H|[H|[]]]; discriminate.
Qed.

(** C2, amended: for a score of N bars whose last section is not empty,
    with [repeatSong] false and the loop disabled, bar completion on bar N
    (a bar without redirect) calls the song-end callback when there is
    one and then runs [stopPlayback]: exactly one "playback-stopped" is
    emitted, the server is stopped with its timer cleared, so that later
    timer ticks change nothing, and the position is back on bar 1 <= N. *)
Theorem song_end_stops now s section bar lastSection :
  flatBars s = buildBarStructure (scoreData s) ->
  inCountoff s = false ->
  index (Score.sections (scoreData s)) (currentSectionIndex s)
    = Some section ->
  index (Sect.bars section) (currentBarInSection s) = Some bar ->
  getAbsoluteBarNumber s = Some (totalBars (scoreData s)) ->
  truthy (Bar.redirect bar) = false ->
  loopEnabled s = false ->
  repeatSong s = false ->
  index (Score.sections (scoreData s))
    (len (Score.sections (scoreData s)) - 1) = Some lastSection ->
  Sect.bars lastSection <> [] ->
  exists s',
    advanceToNextBar now s = Some s'
    /\ s' = stopPlayback (if onSongEnd s then emit SongEnd s else s)
    /\ isPlaying s' = false
    /\ updateInterval s' = false
    /\ events s'
       = events s ++ (if onSongEnd s then [SongEnd] else [])
         ++ (if midiOutput s then [MidiSend 0xFC] else [])
         ++ [IoEmit "playback-stopped"]
    /\ getAbsoluteBarNumber s' = Some 1
    /\ 1 <= totalBars (scoreData s)
    /\ forall later, tick later s' = Some s'.
Proof.
  intros Hflat Hco Hsec Hbar Habs Hred Hloop Hrep Hlast Hne.
  destruct (on_last_bar s section bar lastSection
              Hflat Hco Hsec Hbar Habs Hlast Hne) as [Hsi Hbi].
  destruct (current_bar_lookup s section bar Hflat Hco Hsec Hbar)
    as (before & Hb & Hb0 & Hble & Habs' & Hidx & _).
  assert (Htot : totalBars (scoreData s) = 1 + before + currentBarInSection s)
    by congruence.
  pose proof (index_Some_range _ _ _ Hbar) as Hbr.
  set (s1 := if onSongEnd s then emit SongEnd s else s).
  assert (Hadv : advanceToNextBar now s = Some (stopPlayback s1)).
  { unfold advanceToNextBar. rewrite Hco, Habs, Htot, Hidx.
    unfold redirectOf, orNull. cbn [FlatBar.redirect flatBarOf].
    rewrite Hred, Hloop. cbn [andb].
    unfold plainAdvance. rewrite Hsec.
    destruct (Z.ltb_spec (currentBarInSection s + 1) (len (Sect.bars section)));
      [lia|].
    destruct (Z.ltb_spec (currentSectionIndex s + 1)
                (len (Score.sections (scoreData s)))); [lia|].
    fold s1. replace (repeatSong s1) with (repeatSong s)
      by (subst s1; destruct (onSongEnd s); reflexivity).
    rewrite Hrep. reflexivity. }
  destruct (stopPlayback_fields s1)
    as (Hp & Hc & Hsi' & Hbi' & _ & _ & Hu & _ & _ & Hev).
  exists (stopPlayback s1). repeat split; try assumption.
  - rewrite Hev. subst s1. destruct (onSongEnd s); cbn;
      rewrite <- ?app_assoc; reflexivity.
  - unfold getAbsoluteBarNumber. rewrite Hc, Hsi', Hbi'.
    change (Z.to_nat 0) with 0%nat. reflexivity.
  - lia.
  - intros later. apply tick_not_playing. exact Hp.
Qed.

Lemma song_end_stops_witness :
  exists s',
    advanceToNextBar 1 lastBarServer = Some s'
    /\ s' = stopPlayback
              (if onSongEnd lastBarServer then emit SongEnd lastBarServer
               else lastBarServer)
    /\ isPlaying s' = false
    /\ updateInterval s' = false
    /\ events s'
       = events lastBarServer
         ++ (if onSongEnd lastBarServer then [SongEnd] else [])
         ++ (if midiOutput lastBarServer then [MidiSend 0xFC] else [])
         ++ [IoEmit "playback-stopped"]
    /\ getAbsoluteBarNumber s' = Some 1
    /\ 1 <= totalBars (scoreData lastBarServer)
    /\ forall later, tick later s' = Some s'.
Proof.
  apply (song_end_stops 1 lastBarServer
           (Sect.mk "B" 200 fourFour 2 [plainBar; plainBar; plainBar])
           plainBar
           (Sect.mk "B" 200 fourFour 2 [plainBar; plainBar; plainBar]));
    try reflexivity.
  discriminate.
Defined.

(** ** The position invariant *)

(** C7, as stated, fails: [seekToBar] with a bar number outside the score
    leaves a position that addresses no bar.  Bar 0 gives the offset -1;
    bar 9 of a score of 5 bars gives the clamped section 1 and the offset
    3, past its three bars. *)
Lemma seek_out_of_range_counterexample :
  validPositionb twoSectionsServer = true
  /\ totalBars (scoreData twoSectionsServer) = 5
  /\ inCountoff (seekToBar 0 0 twoSectionsServer) = false
  /\ currentSectionIndex (seekToBar 0 0 twoSectionsServer) = 0
  /\ currentBarInSection (seekToBar 0 0 twoSectionsServer) = -1
  /\ validPositionb (seekToBar 0 0 twoSectionsServer) = false
  /\ inCountoff (seekToBar 0 9 twoSectionsServer) = false
  /\ currentSectionIndex (seekToBar 0 9 twoSectionsServer) = 1
  /\ currentBarInSection (seekToBar 0 9 twoSectionsServer) = 3
  /\ validPositionb (seekToBar 0 9 twoSectionsServer) = false.
Proof. conjuncts; by_computation. Qed.

Lemma seekLoop_index_nonneg sections :
  forall remaining si0, si0 <= snd (seekLoop sections remaining si0).
Proof.
  induction sections as [|sec rest IH]; intros remaining si0; cbn; [lia|].
  destruct (remaining <=? len (Sect.bars sec)); cbn; [lia|].
  specialize (IH (remaining - len (Sect.bars sec)) (si0 + 1)). lia.
Qed.

(** The clamp of [seekToBar]: whatever bar is asked for, the section index
    is one of the score, as soon as the score has a section. *)
Lemma seekToBar_clamps now n s :
  Score.sections (scoreData s) <> [] ->
  0 <= currentSectionIndex (seekToBar now n s)
    < len (Score.sections (scoreData s)).
Proof.
  intros Hne. destruct (seekToBar_fields now n s) as (-> & _).
  pose proof (seekLoop_index_nonneg (Score.sections (scoreData s)) n 0).
  assert (0 < len (Score.sections (scoreData s))).
  { destruct (Score.sections (scoreData s)); [contradiction|].
    rewrite len_cons. pose proof (len_nonneg l). lia. }
  lia.
Qed.

Lemma seekToBar_valid now n s :
  1 <= n <= totalBars (scoreData s) -> validPosition (seekToBar now n s).
Proof.
  intros Hn.
  destruct (seekToBar_lands now s n Hn)
    as (k & section & r & Hsi & Hbi & Hnth & Hbefore & Hin).
  destruct (seekToBar_fields now n s) as (_ & _ & _ & _ & _ & Hsd & _).
  unfold validPosition. rewrite Hsd, Hsi, Hbi.
  exists section. rewrite index_of_nat. split; [assumption|lia].
Qed.

Section WellFormed.

Variable score : Score.t.
Hypothesis wf : wfScoreb score = true.

Lemma wf_sections_nonempty : Score.sections score <> [].
Proof.
  unfold wfScoreb in wf. apply andb_true_iff in wf. destruct wf as [H _].
  apply andb_true_iff in H. destruct H as [H _].
  destruct (Score.sections score); [discriminate|discriminate].
Qed.

Lemma wf_section section :
  In section (Score.sections score) ->
  0 < len (Sect.bars section)
  /\ forall bar, In bar (Sect.bars section) ->
       targetOk (totalBars score) (Bar.redirect bar) = true.
Proof.
  intros Hin. unfold wfScoreb in wf. apply andb_true_iff in wf.
  destruct wf as [H _]. apply andb_true_iff in H. destruct H as [_ H].
  rewrite forallb_forall in H. specialize (H section Hin).
  apply andb_true_iff in H. destruct H as [Hne Hbars]. split.
  - destruct (Sect.bars section); [discriminate|].
    rewrite len_cons. pose proof (len_nonneg l). lia.
  - intros bar Hbar. rewrite forallb_forall in Hbars. auto.
Qed.

Lemma wf_loop l :
  Score.loop score = Some l ->
  targetOk (totalBars score) (Loop.start l) = true.
Proof.
  intros Hl. unfold wfScoreb in wf. apply andb_true_iff in wf.
  destruct wf as [_ H]. rewrite Hl in H. exact H.
Qed.

Lemma index_In {A : Type} (l : list A) (i : Z) (x : A) :
  index l i = Some x -> In x l.
Proof.
  intros H. destruct (index_Some_nth _ _ _ H) as [Hn _].
  eapply nth_error_In; eassumption.
Qed.

Lemma wf_total_positive : 1 <= totalBars score.
Proof.
  pose proof wf_sections_nonempty as Hne. rewrite totalBars_sum.
  destruct (Score.sections score) as [|sec rest] eqn:Hs; [contradiction|].
  destruct (wf_section sec) as [Hlen _]; [rewrite Hs; left; reflexivity|].
  cbn [sumBars]. pose proof (sumBars_nonneg rest). lia.
Qed.

(** Section 0, bar 0 is a bar of the score. *)
Lemma wf_origin_valid s :
  scoreData s = score ->
  currentSectionIndex s = 0 -> currentBarInSection s = 0 ->
  validPosition s.
Proof.
  intros Hsd Hsi Hbi. unfold validPosition. rewrite Hsd, Hsi, Hbi.
  pose proof wf_sections_nonempty as Hne.
  destruct (Score.sections score) as [|sec rest] eqn:Hs; [contradiction|].
  exists sec. split; [reflexivity|].
  destruct (wf_section sec) as [Hlen _]; [rewrite Hs; left; reflexivity|].
  lia.
Qed.

Lemma targetOk_orElse o :
  targetOk (totalBars score) o = true ->
  1 <= orElse o 1 <= totalBars score.
Proof.
  pose proof wf_total_positive as Ht.
  unfold targetOk, orElse, truthy. destruct o as [z|]; [|lia].
  destruct (Z.eqb_spec z 0); cbn; [lia|].
  intros H. apply andb_true_iff in H. lia.
Qed.

Lemma targetOk_orNull o :
  targetOk (totalBars score) o = true ->
  targetOk (totalBars score) (orNull o) = true.
Proof.
  unfold orNull. destruct (truthy o); [auto|reflexivity].
Qed.

End WellFormed.

Lemma keeps_refl s : keeps s s.
Proof. solve_keeps. Qed.

Lemma keeps_trans s1 s2 s3 : keeps s1 s2 -> keeps s2 s3 -> keeps s1 s3.
Proof.
  unfold keeps. intros (A1 & B1 & C1 & D1) (A2 & B2 & C2 & D2).
  repeat split; try congruence.
  destruct D2 as [[E F]|[E F]]; [|right; split; assumption].
  destruct D1 as [[G H]|[G H]]; [left|right]; split; congruence.
Qed.

Lemma keeps_emit e s : keeps s (emit e s).
Proof. solve_keeps. Qed.

Lemma keeps_stopMidiClock s : keeps s (stopMidiClock s).
Proof. unfold stopMidiClock. solve_keeps. Qed.

Lemma keeps_startMidiClock tempo s : keeps s (startMidiClock tempo s).
Proof. unfold startMidiClock, stopMidiClock. solve_keeps. Qed.

Lemma keeps_sendMidiContinue s : keeps s (sendMidiContinue s).
Proof. unfold sendMidiContinue. solve_keeps. Qed.

Lemma keeps_midiPulse s : keeps s (midiPulse s).
Proof. unfold midiPulse. solve_keeps. Qed.

Lemma keeps_midiOutputOpened s : keeps s (midiOutputOpened s).
Proof. unfold midiOutputOpened. solve_keeps. Qed.

Lemma keeps_registerOnSongEnd s : keeps s (registerOnSongEnd s).
Proof. unfold registerOnSongEnd. solve_keeps. Qed.

Lemma keeps_setRepeat repeat s : keeps s (setRepeat repeat s).
Proof. unfold setRepeat. solve_keeps. Qed.

Lemma keeps_stopPlayback s : keeps s (stopPlayback s).
Proof.
  destruct (stopPlayback_fields s) as (_ & _ & A & B & _ & _ & _ & C & D & _).
  unfold keeps. repeat split; try assumption.
  - unfold stopPlayback, stopMidiClock. repeat (cbn; break_branch); reflexivity.
  - right. split; assumption.
Qed.

Lemma keeps_pause s : keeps s (pause s).
Proof. unfold pause, stopMidiClock. solve_keeps. Qed.

Lemma keeps_play now s : keeps s (play now s).
Proof.
  unfold play, startMidiClock, sendMidiContinue, stopMidiClock. solve_keeps.
Qed.

Lemma keeps_countoffAdvance now s : keeps s (countoffAdvance now s).
Proof. unfold countoffAdvance. solve_keeps. Qed.

Lemma keeps_oscTrigger barInfo s : keeps s (oscTrigger barInfo s).
Proof. unfold oscTrigger, sendOscMessage. solve_keeps. Qed.

Lemma keeps_set_currentBeat v s : keeps s (set_currentBeat v s).
Proof. solve_keeps. Qed.

Lemma index_in_range {A : Type} (l : list A) (i : Z) :
  0 <= i < len l -> exists x, index l i = Some x.
Proof.
  intros Hi. unfold index, len in *.
  destruct (Z.ltb_spec i 0); [lia|].
  destruct (nth_error l (Z.to_nat i)) as [x|] eqn:Hn; [eauto|].
  apply nth_error_None in Hn. lia.
Qed.

Lemma flatOfBars_redirect section si bars :
  forall bi abs info,
    In info (flatOfBars section si bars bi abs) ->
    exists bar, In bar bars /\ FlatBar.redirect info = Bar.redirect bar.
Proof.
  induction bars as [|b rest IH]; intros bi abs info Hin; [contradiction|].
  cbn [flatOfBars] in Hin. destruct Hin as [<-|Hin].
  - exists b. split; [left; reflexivity|reflexivity].
  - destruct (IH _ _ _ Hin) as (bar & Hb & Hr).
    exists bar. split; [right; assumption|assumption].
Qed.

(** Every redirect in the index is the redirect of a bar of the score. *)
Lemma flatOfSections_redirect sections :
  forall si abs info,
    In info (flatOfSections sections si abs) ->
    exists section bar,
      In section sections /\ In bar (Sect.bars section)
      /\ FlatBar.redirect info = Bar.redirect bar.
Proof.
  induction sections as [|sec rest IH]; intros si abs info Hin; [contradiction|].
  cbn [flatOfSections] in Hin. apply in_app_or in Hin.
  destruct Hin as [Hin|Hin].
  - destruct (flatOfBars_redirect _ _ _ _ _ _ Hin) as (bar & Hb & Hr).
    exists sec, bar. repeat split; [left; reflexivity|assumption|assumption].
  - destruct (IH _ _ _ Hin) as (section & bar & Hs & Hb & Hr).
    exists section, bar. repeat split; [right; assumption|assumption|assumption].
Qed.

Section Invariant.

Variable score : Score.t.
Hypothesis wf : wfScoreb score = true.

Lemma invariant_keeps s s' :
  positionInvariant score s -> keeps s s' -> positionInvariant score s'.
Proof.
  intros (Hsd & Hfb & Hv & Hl) (A & B & C & D).
  unfold positionInvariant. repeat split; try congruence.
  destruct D as [[E F]|[E F]].
  - unfold validPosition in *. rewrite A, E, F. exact Hv.
  - apply (wf_origin_valid score wf); congruence.
Qed.

Lemma invariant_new repeatSong oscEnabled midiEnabled :
  positionInvariant score (newServer score repeatSong oscEnabled midiEnabled).
Proof.
  unfold positionInvariant. repeat split.
  - apply (wf_origin_valid score wf); reflexivity.
  - cbn. destruct (Score.loop score) as [l|] eqn:Hl; [|reflexivity].
    apply targetOk_orNull. apply (wf_loop score wf). exact Hl.
Qed.

Lemma invariant_seekToBar now n s :
  positionInvariant score s -> 1 <= n <= totalBars score ->
  positionInvariant score (seekToBar now n s).
Proof.
  intros (Hsd & Hfb & Hv & Hl) Hn.
  destruct (seekToBar_fields now n s) as (_ & _ & _ & _ & _ & A & B & _).
  unfold positionInvariant. repeat split; try congruence.
  - apply seekToBar_valid. rewrite Hsd. exact Hn.
  - unfold seekToBar. destruct (seekLoop _ n 0). cbn. exact Hl.
Qed.

Lemma invariant_setLoop l s :
  positionInvariant score s ->
  targetOk (totalBars score) (Loop.start l) = true ->
  positionInvariant score (setLoop l s).
Proof.
  intros (Hsd & Hfb & Hv & Hl) Hok.
  unfold positionInvariant. repeat split; assumption.
Qed.

Lemma invariant_redirect_target s i info target :
  positionInvariant score s ->
  index (flatBars s) i = Some info ->
  redirectOf (Some info) = Some target ->
  1 <= target <= totalBars score.
Proof.
  intros (Hsd & Hfb & Hv & Hl) Hidx Hred.
  rewrite Hfb, buildBarStructure_eq in Hidx.
  apply index_In in Hidx.
  destruct (flatOfSections_redirect _ _ _ _ Hidx)
    as (section & bar & Hs & Hb & Hr).
  destruct (wf_section score wf section Hs) as [_ Hbars].
  specialize (Hbars bar Hb). rewrite <- Hr in Hbars.
  unfold redirectOf, orNull, truthy in Hred. unfold targetOk in Hbars.
  destruct (FlatBar.redirect info) as [z|]; [|discriminate].
  destruct (Z.eqb_spec z 0); cbn in *; [discriminate|].
  injection Hred as <-. apply andb_true_iff in Hbars. lia.
Qed.

Lemma invariant_plainAdvance now s s' :
  positionInvariant score s -> plainAdvance now s = Some s' ->
  positionInvariant score s'.
Proof.
  intros Hinv Hadv. pose proof Hinv as (Hsd & Hfb & Hv & Hl).
  unfold plainAdvance in Hadv.
  destruct Hv as (section & Hsec & Hbi). rewrite Hsec in Hadv.
  destruct (Z.ltb_spec (currentBarInSection s + 1) (len (Sect.bars section))).
  - injection Hadv as <-. unfold positionInvariant. cbn.
    repeat split; try assumption.
    exists section. cbn. split; [assumption|lia].
  - destruct (Z.ltb_spec (currentSectionIndex s + 1)
                (len (Score.sections (scoreData s)))).
    + injection Hadv as <-. unfold positionInvariant. cbn.
      repeat split; try assumption.
      pose proof (index_Some_range _ _ _ Hsec) as Hr.
      destruct (index_in_range (Score.sections (scoreData s))
                  (currentSectionIndex s + 1) ltac:(lia)) as [next Hnext].
      exists next. cbn. split; [assumption|].
      destruct (wf_section score wf next) as [Hlen _]; [|lia].
      rewrite <- Hsd. eapply index_In. exact Hnext.
    + set (s1 := if onSongEnd s then emit SongEnd s else s) in Hadv.
      assert (K1 : keeps s s1)
        by (subst s1; destruct (onSongEnd s);
            [apply keeps_emit|apply keeps_refl]).
      destruct (repeatSong s1).
      * injection Hadv as <-. apply (invariant_keeps s); [assumption|].
        eapply keeps_trans; [exact K1|]. solve_keeps.
      * injection Hadv as <-. apply (invariant_keeps s); [assumption|].
        eapply keeps_trans; [exact K1|apply keeps_stopPlayback].
Qed.

Lemma invariant_advanceToNextBar now s s' :
  positionInvariant score s -> advanceToNextBar now s = Some s' ->
  positionInvariant score s'.
Proof.
  intros Hinv Hadv. pose proof Hinv as (Hsd & Hfb & Hv & Hl).
  unfold advanceToNextBar in Hadv.
  destruct (inCountoff s).
  - injection Hadv as <-. apply (invariant_keeps s); [assumption|].
    apply keeps_countoffAdvance.
  - destruct (getAbsoluteBarNumber s) as [abs|]; [|discriminate].
    destruct (index (flatBars s) (abs - 1)) as [info|] eqn:Hidx.
    + destruct (redirectOf (Some info)) as [target|] eqn:Hred.
      * injection Hadv as <-. apply invariant_seekToBar; [assumption|].
        eapply invariant_redirect_target; eassumption.
      * destruct (loopEnabled s && truthy (loopEnd s)
                  && (orElse (loopEnd s) 0 <=? abs)).
        -- injection Hadv as <-. apply invariant_seekToBar.
           ++ apply (invariant_keeps s); [assumption|]. solve_keeps.
           ++ apply (targetOk_orElse score wf). exact Hl.
        -- eapply invariant_plainAdvance; eassumption.
    + cbn [redirectOf] in Hadv.
      destruct (loopEnabled s && truthy (loopEnd s)
                && (orElse (loopEnd s) 0 <=? abs)).
      * injection Hadv as <-. apply invariant_seekToBar.
        -- apply (invariant_keeps s); [assumption|]. solve_keeps.
        -- apply (targetOk_orElse score wf). exact Hl.
      * eapply invariant_plainAdvance; eassumption.
Qed.

Lemma invariant_tick now s s' :
  positionInvariant score s -> tick now s = Some s' ->
  positionInvariant score s'.
Proof.
  intros Hinv Htick. unfold tick in Htick.
  destruct (isPlaying s); cbn [negb] in Htick;
    [|injection Htick as <-; assumption].
  destruct (getCurrentBarInfo s) as [[barInfo|]|]; [| |discriminate].
  - cbv zeta in Htick.
    match type of Htick with
    | match ?m with _ => _ end = _ => destruct m as [s1|] eqn:Hm
    end; [|discriminate].
    injection Htick as <-.
    assert (positionInvariant score s1).
    { destruct (Qle_bool _ _).
      - eapply invariant_advanceToNextBar; eassumption.
      - destruct (negb _); injection Hm as <-; [|assumption].
        apply (invariant_keeps s); [assumption|apply keeps_set_currentBeat]. }
    apply (invariant_keeps s1); [assumption|].
    eapply keeps_trans; [apply keeps_oscTrigger|apply keeps_emit].
  - injection Htick as <-. apply (invariant_keeps s); [assumption|].
    apply keeps_stopPlayback.
Qed.

Lemma reachable_invariant s :
  reachable score s -> positionInvariant score s.
Proof.
  induction 1.
  - apply invariant_new.
  - eapply invariant_keeps; [eassumption|apply keeps_midiOutputOpened].
  - eapply invariant_keeps; [eassumption|apply keeps_registerOnSongEnd].
  - eapply invariant_keeps; [eassumption|apply keeps_play].
  - eapply invariant_keeps; [eassumption|apply keeps_pause].
  - eapply invariant_keeps; [eassumption|apply keeps_stopPlayback].
  - apply invariant_seekToBar; assumption.
  - apply invariant_setLoop; assumption.
  - eapply invariant_keeps; [eassumption|apply keeps_setRepeat].
  - eapply invariant_advanceToNextBar; eassumption.
  - eapply invariant_tick; eassumption.
  - eapply invariant_keeps; [eassumption|apply keeps_midiPulse].
Qed.

End Invariant.

(** C7, amended: for a score with at least one section, no empty section
    and all redirects and loop starts inside the score, every server
    reached by the constructor, play, pause, stop, seeks to bars
    1..totalBars, loop settings, bar completions and timer ticks is, outside
    the countoff, on a bar of the score; a seek to any bar number at all
    leaves the section index inside the score (the clamp), and nothing
    more. *)
Theorem valid_position_invariant score s :
  wfScoreb score = true ->
  reachable score s ->
  (inCountoff s = false -> validPosition s)
  /\ forall now n,
       0 <= currentSectionIndex (seekToBar now n s)
         < len (Score.sections score).
Proof.
  intros wf Hreach.
  destruct (reachable_invariant score wf s Hreach) as (Hsd & _ & Hv & _).
  split; [intros _; exact Hv|].
  intros now n. rewrite <- Hsd. apply seekToBar_clamps.
  rewrite Hsd. apply (wf_sections_nonempty score wf).
Qed.

Lemma valid_position_invariant_witness :
  wfScoreb twoSections = true
  /\ reachable twoSections lastBarOfA
  /\ (inCountoff lastBarOfA = false -> validPosition lastBarOfA)
  /\ forall now n,
       0 <= currentSectionIndex (seekToBar now n lastBarOfA)
         < len (Score.sections twoSections).
Proof.
  assert (Hr : reachable twoSections lastBarOfA).
  { apply reach_seekToBar; [apply reach_new|].
    vm_compute. split; discriminate. }
  split; [reflexivity|]. split; [exact Hr|].
  apply (valid_position_invariant twoSections lastBarOfA);
    [reflexivity|exact Hr].
Defined.

(** ** Scores with nothing to play *)

Lemma flatOfSections_empty sections :
  Forall (fun section => Sect.bars section = []) sections ->
  forall si abs, flatOfSections sections si abs = [].
Proof.
  induction 1 as [|sec rest Hsec _ IH]; intros si abs; [reflexivity|].
  cbn [flatOfSections]. rewrite Hsec, IH. reflexivity.
Qed.

(** C8, as stated, fails: [play] on a server whose score has no sections
    sets [isPlaying] and the timer. *)
Lemma play_empty_counterexample :
  Score.sections (scoreData emptyServer) = []
  /\ flatBars emptyServer = []
  /\ isPlaying emptyServer = false
  /\ isPlaying (play 0 emptyServer) = true
  /\ updateInterval (play 0 emptyServer) = true
  /\ events (play 0 emptyServer) = [IoEmit "playback-started"].
Proof. conjuncts; by_computation. Qed.

(** C8, amended: when the score has no sections, or no section has a
    bar, the index is empty; [play] on the new server still sets
    [isPlaying] and the timer and emits "playback-started"; with no
    countoff it is the first timer tick that finds no current bar and runs
    [stopPlayback]. *)
Theorem play_on_empty_score score repeatSong oscEnabled midiEnabled now :
  Forall (fun section => Sect.bars section = []) (Score.sections score) ->
  flatBars (newServer score repeatSong oscEnabled midiEnabled) = []
  /\ isPlaying (play now (newServer score repeatSong oscEnabled midiEnabled))
     = true
  /\ updateInterval
       (play now (newServer score repeatSong oscEnabled midiEnabled)) = true
  /\ events (play now (newServer score repeatSong oscEnabled midiEnabled))
     = [IoEmit "playback-started"]
  /\ (Score.countoff score <= 0 ->
      forall later,
        tick later (play now (newServer score repeatSong oscEnabled midiEnabled))
        = Some (stopPlayback
                  (play now
                     (newServer score repeatSong oscEnabled midiEnabled)))).
Proof.
  intros Hempty.
  assert (Hflat : buildBarStructure score = []).
  { rewrite buildBarStructure_eq. apply flatOfSections_empty. exact Hempty. }
  split; [exact Hflat|].
  set (s := play now (newServer score repeatSong oscEnabled midiEnabled)).
  assert (Hs : isPlaying s = true
               /\ updateInterval s = true
               /\ events s = [IoEmit "playback-started"]
               /\ flatBars s = []
               /\ currentSectionIndex s = 0
               /\ currentBarInSection s = 0
               /\ inCountoff s = (0 <? Score.countoff score)).
  { subst s. unfold play, startMidiClock. cbn.
    destruct midiEnabled, (0 <? Score.countoff score); cbn; rewrite ?Hflat;
      conjuncts; reflexivity. }
  destruct Hs as (Hp & Hu & He & Hf & Hsi & Hbi & Hco).
  conjuncts; try assumption.
  intros Hle later.
  unfold tick, getCurrentBarInfo, getAbsoluteBarNumber.
  rewrite Hp, Hco, Hsi, Hbi, Hf.
  destruct (Z.ltb_spec 0 (Score.countoff score)); [lia|].
  reflexivity.
Qed.

Lemma play_on_empty_score_witness :
  flatBars (newServer emptyScore false false false) = []
  /\ isPlaying (play 0 (newServer emptyScore false false false)) = true
  /\ updateInterval (play 0 (newServer emptyScore false false false)) = true
  /\ events (play 0 (newServer emptyScore false false false))
     = [IoEmit "playback-started"]
  /\ (Score.countoff emptyScore <= 0 ->
      forall later,
        tick later (play 0 (newServer emptyScore false false false))
        = Some (stopPlayback (play 0 (newServer emptyScore false false false)))).
Proof.
  apply (play_on_empty_score emptyScore false false false 0).
  constructor.
Defined.

(** With a countoff and no section at all, the first tick raises: the
    countoff bar is built from [sections[0]]. *)
Lemma tick_countoff_without_sections score repeatSong oscEnabled midiEnabled
    now later :
  Score.sections score = [] ->
  0 < Score.countoff score ->
  tick later (play now (newServer score repeatSong oscEnabled midiEnabled))
  = None.
Proof.
  intros Hs Hc.
  set (s := play now (newServer score repeatSong oscEnabled midiEnabled)).
  assert (Hf : isPlaying s = true
               /\ inCountoff s = (0 <? Score.countoff score)
               /\ scoreData s = score).
  { subst s. unfold play, startMidiClock. cbn.
    destruct midiEnabled, (0 <? Score.countoff score); cbn;
      conjuncts; reflexivity. }
  destruct Hf as (Hp & Hco & Hsd).
  unfold tick, getCurrentBarInfo. rewrite Hp, Hco, Hsd, Hs.
  destruct (Z.ltb_spec 0 (Score.countoff score)); [|lia].
  reflexivity.
Qed.

(** ** Resuming *)

Lemma sendMidiContinue_on s :
  midiEnabled s = true -> midiOutput s = true ->
  sendMidiContinue s = emit (MidiSend 0xFB) s.
Proof. intros He Ho. unfold sendMidiContinue. rewrite He, Ho. reflexivity. Qed.

(** With the output open, [startMidiClock] sends Stop, then Start, and
    touches nothing of the transport. *)
Lemma startMidiClock_on tempo s :
  midiEnabled s = true -> midiOutput s = true ->
  events (startMidiClock tempo s)
  = events s ++ [MidiSend 0xFC; MidiSend 0xFA]
  /\ currentSectionIndex (startMidiClock tempo s) = currentSectionIndex s
  /\ currentBarInSection (startMidiClock tempo s) = currentBarInSection s
  /\ inCountoff (startMidiClock tempo s) = inCountoff s
  /\ barStartTime (startMidiClock tempo s) = barStartTime s
  /\ isPlaying (startMidiClock tempo s) = isPlaying s.
Proof.
  intros He Ho. unfold startMidiClock, stopMidiClock. rewrite He, Ho. cbn.
  destruct (midiClockInterval s); cbn; rewrite Ho; cbn;
    rewrite <- ?app_assoc; conjuncts; reflexivity.
Qed.

(** What [play] does to a paused server with the MIDI output open: the
    position stays, and the output receives Continue, then the Stop and
    the Start of [startMidiClock]. *)
Lemma play_resume now s t :
  isPlaying s = false ->
  barStartTime s = Some t ->
  t <> 0 ->
  midiEnabled s = true ->
  midiOutput s = true ->
  events (play now s)
  = events s ++ [MidiSend 0xFB; MidiSend 0xFC; MidiSend 0xFA;
                 IoEmit "playback-started"]
  /\ currentSectionIndex (play now s) = currentSectionIndex s
  /\ currentBarInSection (play now s) = currentBarInSection s
  /\ inCountoff (play now s) = inCountoff s
  /\ barStartTime (play now s) = Some t
  /\ isPlaying (play now s) = true.
Proof.
  intros Hp Hb Ht He Ho.
  assert (Htr : truthy (Some t) = true).
  { unfold truthy. destruct (Z.eqb_spec t 0); [contradiction|reflexivity]. }
  unfold play. rewrite Hp.
  cbn -[sendMidiContinue startMidiClock getCurrentTempo truthy].
  rewrite !Hb, !Htr.
  cbn -[sendMidiContinue startMidiClock getCurrentTempo truthy].
  rewrite ?Hb, ?Htr.
  cbn -[sendMidiContinue startMidiClock getCurrentTempo truthy].
  set (s1 := set_isPlaying true s).
  set (tempo := getCurrentTempo s1).
  rewrite (sendMidiContinue_on s1 He Ho).
  destruct (startMidiClock_on tempo (emit (MidiSend 0xFB) s1) He Ho)
    as (Hev & Hsi & Hbi & Hco & Hbs & Hpl).
  rewrite Hev, Hsi, Hbi, Hco, Hbs, Hpl. cbn. rewrite Hb.
  rewrite <- !app_assoc. cbn. conjuncts; reflexivity.
Qed.

(** C9 on the code: a server paused on bar 3, with MIDI enabled and the
    output open, is resumed.  The position is kept and Continue (0xFB) is
    sent, but Stop (0xFC) and Start (0xFA) follow it before the clock
    restarts. *)
Theorem resume_sends_start_after_continue :
  isPlaying pausedServer = false
  /\ barStartTime pausedServer = Some 2000
  /\ getAbsoluteBarNumber pausedServer = Some 3
  /\ midiEnabled pausedServer = true
  /\ midiOutput pausedServer = true
  /\ getAbsoluteBarNumber (play 5000 pausedServer) = Some 3
  /\ events (play 5000 pausedServer)
     = events pausedServer
       ++ [MidiSend 0xFB; MidiSend 0xFC; MidiSend 0xFA;
           IoEmit "playback-started"]
  /\ In (MidiSend 0xFA)
       (skipn (List.length (events pausedServer))
          (events (play 5000 pausedServer))).
Proof.
  conjuncts; try by_computation.
  vm_compute. right. right. left. reflexivity.
Qed.

(** * Further properties of the server *)

(** ** The bar index, read backwards *)

Lemma index_app_split {A : Type} (l1 l2 : list A) (i : Z) (x : A) :
  index (l1 ++ l2) i = Some x ->
  index l1 i = Some x
  \/ (len l1 <= i /\ index l2 (i - len l1) = Some x).
Proof.
  intros H. pose proof (index_Some_range _ _ _ H) as Hr.
  destruct (Z.lt_ge_cases i (len l1)) as [Hlt|Hge].
  - left. destruct (index_in_range l1 i ltac:(lia)) as [y Hy].
    rewrite (index_app_l l1 l2 i y Hy) in H. congruence.
  - right. split; [assumption|].
    replace i with (len l1 + (i - len l1)) in H by lia.
    rewrite index_app_r in H by lia. exact H.
Qed.

Lemma flatOfBars_index_inv section si bars bi0 abs0 j fb :
  index (flatOfBars section si bars bi0 abs0) j = Some fb ->
  exists bar,
    index bars j = Some bar
    /\ fb = flatBarOf section si bar (bi0 + j) (abs0 + j).
Proof.
  intros H. pose proof (index_Some_range _ _ _ H) as Hr.
  rewrite len_flatOfBars in Hr.
  destruct (index_in_range bars j Hr) as [bar Hbar].
  exists bar. split; [assumption|].
  rewrite (flatOfBars_index _ _ _ bi0 abs0 j bar Hbar) in H. congruence.
Qed.

Lemma barsBefore_succ sections :
  forall (k : nat) section before,
    nth_error sections k = Some section ->
    barsBefore sections k = Some before ->
    barsBefore sections (S k) = Some (before + len (Sect.bars section)).
Proof.
  induction sections as [|sec rest IH]; intros k section before Hk Hb.
  - destruct k; discriminate.
  - destruct k as [|k].
    + cbn in Hk, Hb. injection Hk as ->. injection Hb as <-.
      cbn [barsBefore]. f_equal. lia.
    + cbn [nth_error] in Hk. cbn [barsBefore] in Hb.
      destruct (barsBefore rest k) as [b|] eqn:Hb'; [|discriminate].
      injection Hb as <-.
      change (barsBefore (sec :: rest) (S (S k)))
        with (match barsBefore rest (S k) with
              | Some c => Some (len (Sect.bars sec) + c)
              | None => None
              end).
      rewrite (IH k section b Hk Hb'). f_equal. lia.
Qed.

(** Every entry of the index comes from a bar of a section: the entry at
    [i] is bar [j] of section [k] with [i = before + j]. *)
Lemma flatOfSections_index_inv sections :
  forall si0 abs0 i fb,
    index (flatOfSections sections si0 abs0) i = Some fb ->
    exists (k : nat) section j bar before,
      nth_error sections k = Some section
      /\ index (Sect.bars section) j = Some bar
      /\ barsBefore sections k = Some before
      /\ i = before + j
      /\ fb = flatBarOf section (si0 + Z.of_nat k) bar j (abs0 + i).
Proof.
  induction sections as [|sec rest IH]; intros si0 abs0 i fb H.
  - cbn in H. rewrite index_nil in H. discriminate.
  - cbn [flatOfSections] in H.
    destruct (index_app_split _ _ _ _ H) as [Hl|[Hge Hr]].
    + destruct (flatOfBars_index_inv _ _ _ _ _ _ _ Hl) as (bar & Hbar & ->).
      exists 0%nat, sec, i, bar, 0. cbn. repeat split; try assumption.
      f_equal; lia.
    + rewrite len_flatOfBars in Hge, Hr.
      destruct (IH _ _ _ _ Hr)
        as (k & section & j & bar & before & Hk & Hbar & Hb & Hi & ->).
      exists (S k), section, j, bar, (len (Sect.bars sec) + before).
      cbn [nth_error barsBefore]. rewrite Hb.
      repeat split; try assumption; try lia.
      f_equal; lia.
Qed.

(** X1: the entry at position i of the index built by [buildBarStructure]
    has absolute number i + 1, and its [sectionIndex] and [barInSection]
    address, in the score, the bar it was made from. *)
Theorem flat_bar_addresses_its_bar score i fb :
  index (buildBarStructure score) i = Some fb ->
  FlatBar.absoluteNumber fb = i + 1
  /\ exists section bar,
       index (Score.sections score) (FlatBar.sectionIndex fb) = Some section
       /\ index (Sect.bars section) (FlatBar.barInSection fb) = Some bar
       /\ FlatBar.tempo fb = Sect.tempo section
       /\ FlatBar.timeSignature fb = Sect.timeSignature section
       /\ FlatBar.chords fb = Bar.chords bar
       /\ FlatBar.redirect fb = Bar.redirect bar.
Proof.
  intros H. rewrite buildBarStructure_eq in H.
  destruct (flatOfSections_index_inv _ _ _ _ _ H)
    as (k & section & j & bar & before & Hk & Hbar & Hb & Hi & ->).
  split; [cbn [FlatBar.absoluteNumber flatBarOf]; lia|].
  exists section, bar. cbn [FlatBar.sectionIndex FlatBar.barInSection flatBarOf].
  rewrite Z.add_0_l, index_of_nat. repeat split; assumption.
Qed.

Lemma flat_bar_addresses_its_bar_witness :
  FlatBar.absoluteNumber
    (flatBarOf (Sect.mk "B" 200 fourFour 2 [plainBar; plainBar; plainBar])
       1 plainBar 1 4) = 3 + 1
  /\ exists section bar,
       index (Score.sections twoSections)
         (FlatBar.sectionIndex
            (flatBarOf (Sect.mk "B" 200 fourFour 2 [plainBar; plainBar; plainBar])
               1 plainBar 1 4)) = Some section
       /\ index (Sect.bars section)
            (FlatBar.barInSection
               (flatBarOf (Sect.mk "B" 200 fourFour 2 [plainBar; plainBar; plainBar])
                  1 plainBar 1 4)) = Some bar
       /\ FlatBar.tempo
            (flatBarOf (Sect.mk "B" 200 fourFour 2 [plainBar; plainBar; plainBar])
               1 plainBar 1 4) = Sect.tempo section
       /\ FlatBar.timeSignature
            (flatBarOf (Sect.mk "B" 200 fourFour 2 [plainBar; plainBar; plainBar])
               1 plainBar 1 4) = Sect.timeSignature section
       /\ FlatBar.chords
            (flatBarOf (Sect.mk "B" 200 fourFour 2 [plainBar; plainBar; plainBar])
               1 plainBar 1 4) = Bar.chords bar
       /\ FlatBar.redirect
            (flatBarOf (Sect.mk "B" 200 fourFour 2 [plainBar; plainBar; plainBar])
               1 plainBar 1 4) = Bar.redirect bar.
Proof.
  apply (flat_bar_addresses_its_bar twoSections 3). vm_compute. reflexivity.
Defined.

(** Seeking to the number of an entry of the index. *)
Lemma seek_to_entry now s i fb :
  flatBars s = buildBarStructure (scoreData s) ->
  index (flatBars s) i = Some fb ->
  getAbsoluteBarNumber (seekToBar now (i + 1) s) = Some (i + 1)
  /\ getCurrentBarInfo (seekToBar now (i + 1) s) = Some (Some fb)
  /\ currentSectionIndex (seekToBar now (i + 1) s) = FlatBar.sectionIndex fb
  /\ currentBarInSection (seekToBar now (i + 1) s) = FlatBar.barInSection fb.
Proof.
  intros Hflat Hidx.
  pose proof (index_Some_range _ _ _ Hidx) as Hr.
  assert (Hn : 1 <= i + 1 <= totalBars (scoreData s)).
  { unfold totalBars. rewrite <- Hflat. lia. }
  destruct (seekToBar_lands now s (i + 1) Hn)
    as (k & section & r & Hsi & Hbi & Hnth & Hbefore & Hin).
  destruct (seekToBar_fields now (i + 1) s)
    as (_ & _ & Hco & _ & _ & Hsd & Hfb & _).
  assert (Habs : getAbsoluteBarNumber (seekToBar now (i + 1) s) = Some (i + 1)).
  { rewrite (absolute_of_position _ k (i + 1 - r) Hco Hsi)
      by (rewrite Hsd; exact Hbefore).
    rewrite Hbi. f_equal. lia. }
  destruct (index_in_range (Sect.bars section) (r - 1) ltac:(lia))
    as [bar Hbar].
  pose proof (flatOfSections_index _ 0 1 _ _ _ _ _ Hnth Hbar Hbefore) as Hf.
  rewrite <- buildBarStructure_eq, <- Hflat in Hf.
  replace (i + 1 - r + (r - 1)) with i in Hf by lia.
  rewrite Hidx in Hf. injection Hf as ->.
  repeat split.
  - exact Habs.
  - unfold getCurrentBarInfo. rewrite Hco, Habs, Hfb.
    replace (i + 1 - 1) with i by lia. rewrite Hidx. reflexivity.
  - rewrite Hsi. cbn [FlatBar.sectionIndex flatBarOf]. lia.
  - rewrite Hbi. reflexivity.
Qed.

(** X2: for every entry of the index, [seekToBar] with the entry's absolute
    number puts the server on the entry's section and bar, and
    [getCurrentBarInfo] returns that entry. *)
Theorem seek_to_flat_bar now s i fb :
  flatBars s = buildBarStructure (scoreData s) ->
  index (flatBars s) i = Some fb ->
  getCurrentBarInfo (seekToBar now (FlatBar.absoluteNumber fb) s)
  = Some (Some fb)
  /\ currentSectionIndex (seekToBar now (FlatBar.absoluteNumber fb) s)
     = FlatBar.sectionIndex fb
  /\ currentBarInSection (seekToBar now (FlatBar.absoluteNumber fb) s)
     = FlatBar.barInSection fb.
Proof.
  intros Hflat Hidx.
  assert (Hnum : FlatBar.absoluteNumber fb = i + 1).
  { rewrite Hflat, buildBarStructure_eq in Hidx.
    destruct (flatOfSections_index_inv _ _ _ _ _ Hidx)
      as (k & section & j & bar & before & _ & _ & _ & Hi & ->).
    cbn [FlatBar.absoluteNumber flatBarOf]. lia. }
  rewrite Hnum.
  destruct (seek_to_entry now s i fb Hflat Hidx) as (_ & A & B & C).
  repeat split; assumption.
Qed.

Lemma seek_to_flat_bar_witness :
  getCurrentBarInfo
    (seekToBar 7 (FlatBar.absoluteNumber
                    (flatBarOf (Sect.mk "B" 200 fourFour 2
                                  [plainBar; plainBar; plainBar])
                       1 plainBar 1 4)) twoSectionsServer)
  = Some (Some (flatBarOf (Sect.mk "B" 200 fourFour 2
                             [plainBar; plainBar; plainBar]) 1 plainBar 1 4))
  /\ currentSectionIndex
       (seekToBar 7 (FlatBar.absoluteNumber
                       (flatBarOf (Sect.mk "B" 200 fourFour 2
                                     [plainBar; plainBar; plainBar])
                          1 plainBar 1 4)) twoSectionsServer)
     = FlatBar.sectionIndex
         (flatBarOf (Sect.mk "B" 200 fourFour 2
                       [plainBar; plainBar; plainBar]) 1 plainBar 1 4)
  /\ currentBarInSection
       (seekToBar 7 (FlatBar.absoluteNumber
                       (flatBarOf (Sect.mk "B" 200 fourFour 2
                                     [plainBar; plainBar; plainBar])
                          1 plainBar 1 4)) twoSectionsServer)
     = FlatBar.barInSection
         (flatBarOf (Sect.mk "B" 200 fourFour 2
                       [plainBar; plainBar; plainBar]) 1 plainBar 1 4).
Proof.
  apply (seek_to_flat_bar 7 twoSectionsServer 3); vm_compute; reflexivity.
Defined.

(** ** Moving from bar to bar *)

Lemma barsBefore_length sections :
  barsBefore sections (List.length sections) = Some (sumBars sections).
Proof.
  induction sections as [|sec rest IH]; [reflexivity|].
  cbn [List.length barsBefore sumBars]. rewrite IH. reflexivity.
Qed.

(** Bar completion is the plain advance when the bar has no redirect and
    the loop does not apply. *)
Lemma advance_is_plain now s abs :
  inCountoff s = false ->
  getAbsoluteBarNumber s = Some abs ->
  redirectOf (index (flatBars s) (abs - 1)) = None ->
  loopEnabled s && truthy (loopEnd s) && (orElse (loopEnd s) 0 <=? abs)
  = false ->
  advanceToNextBar now s = plainAdvance now s.
Proof.
  intros Hco Habs Hred Hloop. unfold advanceToNextBar.
  rewrite Hco, Habs, Hred, Hloop. reflexivity.
Qed.

Lemma redirectOf_none section si bar bi abs :
  truthy (Bar.redirect bar) = false ->
  redirectOf (Some (flatBarOf section si bar bi abs)) = None.
Proof.
  intros H. unfold redirectOf, orNull. cbn [FlatBar.redirect flatBarOf].
  rewrite H. reflexivity.
Qed.

(** The plain advance from a bar that is not the last bar of the last
    section: the bar number grows by one. *)
Lemma plainAdvance_next now s section before :
  inCountoff s = false ->
  index (Score.sections (scoreData s)) (currentSectionIndex s)
    = Some section ->
  0 <= currentBarInSection s < len (Sect.bars section) ->
  barsBefore (Score.sections (scoreData s))
    (Z.to_nat (currentSectionIndex s)) = Some before ->
  currentBarInSection s + 1 < len (Sect.bars section)
  \/ currentSectionIndex s + 1 < len (Score.sections (scoreData s)) ->
  exists s',
    plainAdvance now s = Some s'
    /\ getAbsoluteBarNumber s'
       = Some (1 + before + currentBarInSection s + 1)
    /\ isPlaying s' = isPlaying s
    /\ inCountoff s' = false
    /\ currentBeat s' = 0
    /\ barStartTime s' = Some now
    /\ scoreData s' = scoreData s
    /\ flatBars s' = flatBars s
    /\ events s' = events s.
Proof.
  intros Hco Hsec Hbi Hb Hnext. unfold plainAdvance. rewrite Hsec.
  destruct (index_Some_nth _ _ _ Hsec) as [Hnth Hsi].
  destruct (Z.ltb_spec (currentBarInSection s + 1) (len (Sect.bars section)))
    as [Hin|Hout].
  - eexists. split; [reflexivity|].
    unfold getAbsoluteBarNumber. cbn -[Z.add Z.to_nat barsBefore].
    rewrite Hco, Hb. repeat split. f_equal. lia.
  - destruct Hnext as [Hnext|Hnext]; [lia|].
    destruct (Z.ltb_spec (currentSectionIndex s + 1)
                (len (Score.sections (scoreData s)))); [|lia].
    eexists. split; [reflexivity|].
    unfold getAbsoluteBarNumber. cbn -[Z.add Z.to_nat barsBefore].
    rewrite Hco.
    replace (Z.to_nat (currentSectionIndex s + 1))
      with (S (Z.to_nat (currentSectionIndex s))) by lia.
    rewrite (barsBefore_succ _ _ _ _ Hnth Hb).
    repeat split. f_equal. lia.
Qed.

(** X3: outside the countoff, on a bar without redirect that is not the
    last bar of the last section, with the loop disabled, bar completion
    moves to the next bar: the absolute bar number grows by one, the beat
    is 0, the bar starts now, and nothing is sent. *)
Theorem advance_moves_one_bar now s section bar abs :
  flatBars s = buildBarStructure (scoreData s) ->
  inCountoff s = false ->
  index (Score.sections (scoreData s)) (currentSectionIndex s)
    = Some section ->
  index (Sect.bars section) (currentBarInSection s) = Some bar ->
  truthy (Bar.redirect bar) = false ->
  loopEnabled s = false ->
  getAbsoluteBarNumber s = Some abs ->
  currentBarInSection s + 1 < len (Sect.bars section)
  \/ currentSectionIndex s + 1 < len (Score.sections (scoreData s)) ->
  exists s',
    advanceToNextBar now s = Some s'
    /\ getAbsoluteBarNumber s' = Some (abs + 1)
    /\ isPlaying s' = isPlaying s
    /\ currentBeat s' = 0
    /\ barStartTime s' = Some now
    /\ events s' = events s.
Proof.
  intros Hflat Hco Hsec Hbar Hred Hloop Habs Hnext.
  destruct (current_bar_lookup s section bar Hflat Hco Hsec Hbar)
    as (before & Hb & _ & _ & Habs' & Hidx & _).
  assert (Heq : abs = 1 + before + currentBarInSection s) by congruence.
  pose proof (index_Some_range _ _ _ Hbar) as Hbi.
  destruct (plainAdvance_next now s section before Hco Hsec Hbi Hb Hnext)
    as (s' & Hadv & Ha & Hp & _ & Hbeat & Hstart & _ & _ & Hev).
  exists s'. rewrite (advance_is_plain now s abs Hco Habs).
  - rewrite Heq. repeat split; assumption.
  - rewrite Heq, Hidx. apply redirectOf_none. exact Hred.
  - rewrite Hloop. reflexivity.
Qed.

Lemma advance_moves_one_bar_witness :
  exists s',
    advanceToNextBar 9 playingOnBarTwo = Some s'
    /\ getAbsoluteBarNumber s' = Some (2 + 1)
    /\ isPlaying s' = isPlaying playingOnBarTwo
    /\ currentBeat s' = 0
    /\ barStartTime s' = Some 9
    /\ events s' = events playingOnBarTwo.
Proof.
  apply (advance_moves_one_bar 9 playingOnBarTwo
           (Sect.mk "A" 100 fourFour 0 [plainBar; plainBar]) plainBar 2);
    try by_computation.
  right. vm_compute. reflexivity.
Defined.

(** X4: with [repeatSong] set and the loop disabled, bar completion on
    the last bar of a score whose last section is not empty calls the
    song-end callback when there is one and goes back to bar 1 without a
    countoff: the server keeps playing and [lastTriggeredBar] is -1. *)
Theorem repeat_song_wraps now s section bar lastSection :
  flatBars s = buildBarStructure (scoreData s) ->
  inCountoff s = false ->
  index (Score.sections (scoreData s)) (currentSectionIndex s)
    = Some section ->
  index (Sect.bars section) (currentBarInSection s) = Some bar ->
  getAbsoluteBarNumber s = Some (totalBars (scoreData s)) ->
  truthy (Bar.redirect bar) = false ->
  loopEnabled s = false ->
  repeatSong s = true ->
  index (Score.sections (scoreData s))
    (len (Score.sections (scoreData s)) - 1) = Some lastSection ->
  Sect.bars lastSection <> [] ->
  exists s',
    advanceToNextBar now s = Some s'
    /\ isPlaying s' = isPlaying s
    /\ inCountoff s' = false
    /\ getAbsoluteBarNumber s' = Some 1
    /\ lastTriggeredBar s' = -1
    /\ barStartTime s' = Some now
    /\ events s' = events s ++ (if onSongEnd s then [SongEnd] else []).
Proof.
  intros Hflat Hco Hsec Hbar Habs Hred Hloop Hrep Hlast Hne.
  destruct (on_last_bar s section bar lastSection
              Hflat Hco Hsec Hbar Habs Hlast Hne) as [Hsi Hbi].
  destruct (current_bar_lookup s section bar Hflat Hco Hsec Hbar)
    as (before & Hb & _ & _ & Habs' & Hidx & _).
  assert (Heq : totalBars (scoreData s) = 1 + before + currentBarInSection s)
    by congruence.
  rewrite (advance_is_plain now s _ Hco Habs).
  - unfold plainAdvance. rewrite Hsec.
    destruct (Z.ltb_spec (currentBarInSection s + 1) (len (Sect.bars section)));
      [lia|].
    destruct (Z.ltb_spec (currentSectionIndex s + 1)
                (len (Score.sections (scoreData s)))); [lia|].
    destruct (onSongEnd s); cbn; rewrite Hrep; eexists;
      (split; [reflexivity|]); unfold getAbsoluteBarNumber; cbn;
      rewrite ?Hco, ?app_nil_r; repeat split; reflexivity.
  - rewrite Heq, Hidx. apply redirectOf_none. exact Hred.
  - rewrite Hloop. reflexivity.
Qed.

Lemma repeat_song_wraps_witness :
  exists s',
    advanceToNextBar 9 repeatOnLastBar = Some s'
    /\ isPlaying s' = isPlaying repeatOnLastBar
    /\ inCountoff s' = false
    /\ getAbsoluteBarNumber s' = Some 1
    /\ lastTriggeredBar s' = -1
    /\ barStartTime s' = Some 9
    /\ events s'
       = events repeatOnLastBar
         ++ (if onSongEnd repeatOnLastBar then [SongEnd] else []).
Proof.
  apply (repeat_song_wraps 9 repeatOnLastBar
           (Sect.mk "B" 200 fourFour 2 [plainBar; plainBar; plainBar])
           plainBar
           (Sect.mk "B" 200 fourFour 2 [plainBar; plainBar; plainBar]));
    try by_computation.
  discriminate.
Defined.

(** A valid position that is the last bar of its section, in the last
    section, is bar [totalBars]. *)
Lemma at_end_is_total s section before :
  index (Score.sections (scoreData s)) (currentSectionIndex s)
    = Some section ->
  barsBefore (Score.sections (scoreData s))
    (Z.to_nat (currentSectionIndex s)) = Some before ->
  len (Score.sections (scoreData s)) <= currentSectionIndex s + 1 ->
  before + len (Sect.bars section) = totalBars (scoreData s).
Proof.
  intros Hsec Hb Hlast.
  pose proof (index_Some_range _ _ _ Hsec) as Hr.
  destruct (index_Some_nth _ _ _ Hsec) as [Hnth _].
  pose proof (barsBefore_succ _ _ _ _ Hnth Hb) as Hs.
  replace (S (Z.to_nat (currentSectionIndex s)))
    with (List.length (Score.sections (scoreData s))) in Hs
    by (unfold len in *; lia).
  rewrite barsBefore_length in Hs. rewrite totalBars_sum. congruence.
Qed.

(** X5: with the loop enabled over bars a..e of the score (1 <= a <= e <=
    totalBars), bar completion on a bar without redirect inside the loop
    stays inside the loop: from bar e it goes to bar a, from any other bar
    of the loop to the next bar. *)
Theorem loop_keeps_playback_inside now s section bar abs a e :
  flatBars s = buildBarStructure (scoreData s) ->
  inCountoff s = false ->
  index (Score.sections (scoreData s)) (currentSectionIndex s)
    = Some section ->
  index (Sect.bars section) (currentBarInSection s) = Some bar ->
  truthy (Bar.redirect bar) = false ->
  getAbsoluteBarNumber s = Some abs ->
  loopEnabled s = true ->
  loopStart s = Some a ->
  loopEnd s = Some e ->
  1 <= a <= e ->
  e <= totalBars (scoreData s) ->
  a <= abs <= e ->
  exists s' abs',
    advanceToNextBar now s = Some s'
    /\ inCountoff s' = false
    /\ getAbsoluteBarNumber s' = Some abs'
    /\ a <= abs' <= e
    /\ (abs = e -> abs' = a)
    /\ (abs < e -> abs' = abs + 1).
Proof.
  intros Hflat Hco Hsec Hbar Hred Habs Hen Hstart Hend Hae He Hin.
  destruct (current_bar_lookup s section bar Hflat Hco Hsec Hbar)
    as (before & Hb & _ & _ & Habs' & Hidx & _).
  assert (Heq : abs = 1 + before + currentBarInSection s) by congruence.
  pose proof (index_Some_range _ _ _ Hbar) as Hbi.
  assert (Hnored : redirectOf (index (flatBars s) (abs - 1)) = None).
  { rewrite Heq, Hidx. apply redirectOf_none. exact Hred. }
  assert (Htr : truthy (Some e) = true).
  { unfold truthy. destruct (Z.eqb_spec e 0); [lia|reflexivity]. }
  assert (Hoe : orElse (Some e) 0 = e).
  { unfold orElse. rewrite Htr. reflexivity. }
  destruct (Z.eq_dec abs e) as [Hat|Hbelow].
  - assert (Hoa : orElse (loopStart s) 1 = a).
    { rewrite Hstart. unfold orElse, truthy.
      destruct (Z.eqb_spec a 0); [lia|reflexivity]. }
    set (s0 := set_lastTriggeredBar (-1) s).
    assert (Hn : 1 <= a <= totalBars (scoreData s0)) by (cbn; lia).
    destruct (seekToBar_lands now s0 a Hn)
      as (k & sec' & r & Hsi & Hbi' & Hnth & Hbefore & Hr).
    destruct (seekToBar_fields now a s0) as (_ & _ & Hco' & _ & _ & Hsd & _).
    exists (seekToBar now a s0), a. conjuncts; try lia.
    + unfold advanceToNextBar.
      rewrite Hco, Habs, Hnored, Hen, Hend, Htr, Hoe, Hoa.
      destruct (Z.leb_spec e abs); [reflexivity|lia].
    + exact Hco'.
    + rewrite (absolute_of_position _ k (a - r) Hco' Hsi)
        by (rewrite Hsd; exact Hbefore).
      rewrite Hbi'. f_equal. lia.
  - assert (Hnext : currentBarInSection s + 1 < len (Sect.bars section)
                    \/ currentSectionIndex s + 1
                       < len (Score.sections (scoreData s))).
    { destruct (Z.lt_ge_cases (currentBarInSection s + 1)
                  (len (Sect.bars section))); [left; assumption|].
      destruct (Z.lt_ge_cases (currentSectionIndex s + 1)
                  (len (Score.sections (scoreData s)))); [right; assumption|].
      pose proof (at_end_is_total s section before Hsec Hb ltac:(lia)). lia. }
    destruct (plainAdvance_next now s section before Hco Hsec Hbi Hb Hnext)
      as (s' & Hadv & Ha & _ & Hco' & _).
    exists s', (abs + 1). rewrite (advance_is_plain now s abs Hco Habs Hnored).
    + rewrite Heq. conjuncts; try assumption; lia.
    + rewrite Hen, Hend, Htr, Hoe.
      destruct (Z.leb_spec e abs); [lia|reflexivity].
Qed.

Lemma loop_keeps_playback_inside_witness :
  exists s' abs',
    advanceToNextBar 9 loopOnBarThree = Some s'
    /\ inCountoff s' = false
    /\ getAbsoluteBarNumber s' = Some abs'
    /\ 2 <= abs' <= 4
    /\ (3 = 4 -> abs' = 2)
    /\ (3 < 4 -> abs' = 3 + 1).
Proof.
  apply (loop_keeps_playback_inside 9 loopOnBarThree
           (Sect.mk "B" 200 fourFour 2 [plainBar; plainBar; plainBar])
           plainBar 3 2 4);
    try by_computation; by_comparison.
Defined.

(** ** The countoff *)

Lemma countoffAdvance_fields now s :
  inCountoff s = true ->
  (2 <= countoffBarsRemaining s ->
   inCountoff (countoffAdvance now s) = true
   /\ countoffBarsRemaining (countoffAdvance now s)
      = countoffBarsRemaining s - 1)
  /\ (countoffBarsRemaining s <= 1 ->
      inCountoff (countoffAdvance now s) = false
      /\ currentSectionIndex (countoffAdvance now s) = 0
      /\ currentBarInSection (countoffAdvance now s) = 0).
Proof.
  intros Hco. unfold countoffAdvance. cbn -[Z.sub].
  destruct (Z.leb_spec (countoffBarsRemaining s - 1) 0); cbn -[Z.sub];
    (split; [intros; try lia|intros; try lia]); conjuncts; auto.
Qed.

(** A countoff with c bars left: after k < c completions it has c - k
    bars left, after c completions the song is on bar 1. *)
Lemma countoff_completions now :
  forall (n : nat) s,
    inCountoff s = true ->
    countoffBarsRemaining s = Z.of_nat (S n) ->
    (forall k : nat,
       (k <= n)%nat ->
       exists sk,
         advanceMany now k s = Some sk
         /\ inCountoff sk = true
         /\ getAbsoluteBarNumber sk = Some (- (Z.of_nat (S n) - Z.of_nat k)))
    /\ exists s',
         advanceMany now (S n) s = Some s'
         /\ inCountoff s' = false
         /\ getAbsoluteBarNumber s' = Some 1.
Proof.
  assert (Hstart : forall s c,
             inCountoff s = true -> countoffBarsRemaining s = c ->
             getAbsoluteBarNumber s = Some (- c)).
  { intros s c Hco Hrem. unfold getAbsoluteBarNumber. rewrite Hco, Hrem.
    reflexivity. }
  assert (Hstep : forall m s,
             inCountoff s = true ->
             advanceMany now (S m) s
             = advanceMany now m (countoffAdvance now s)).
  { intros m s Hco. cbn [advanceMany]. unfold advanceToNextBar.
    rewrite Hco. reflexivity. }
  induction n as [|n IH]; intros s Hco Hrem.
  - destruct (countoffAdvance_fields now s Hco) as [_ Hexit].
    destruct (Hexit ltac:(lia)) as (Hco' & Hsi & Hbi). split.
    + intros k Hk. assert (k = 0%nat) by lia. subst k.
      exists s. split; [reflexivity|]. split; [assumption|].
      rewrite (Hstart s _ Hco Hrem). f_equal; lia.
    + exists (countoffAdvance now s). rewrite (Hstep 0%nat s Hco).
      split; [reflexivity|]. split; [assumption|].
      unfold getAbsoluteBarNumber. rewrite Hco', Hsi, Hbi. reflexivity.
  - destruct (countoffAdvance_fields now s Hco) as [Hstay _].
    destruct (Hstay ltac:(lia)) as (Hco' & Hrem').
    destruct (IH (countoffAdvance now s) Hco' ltac:(lia)) as [Hk Hend].
    split.
    + intros [|k] Hle.
      * exists s. split; [reflexivity|]. split; [assumption|].
        rewrite (Hstart s _ Hco Hrem). f_equal; lia.
      * destruct (Hk k ltac:(lia)) as (sk & Hadv & Hcok & Habs).
        exists sk. rewrite (Hstep k s Hco).
        split; [assumption|]. split; [assumption|].
        rewrite Habs. f_equal; lia.
    + destruct Hend as (s' & Hadv & Hco'' & Habs).
      exists s'. rewrite (Hstep (S n) s Hco).
      split; [assumption|]. split; assumption.
Qed.

(** X6: [play] on a new server whose score asks for a countoff of c >= 1
    bars starts in the countoff; after k < c bar completions the server is
    still in the countoff, at position -(c - k), and after exactly c
    completions it is out of the countoff on bar 1. *)
Theorem countoff_lasts_its_bars score repeatSong oscEnabled midiEnabled
    now later (k : nat) :
  1 <= Score.countoff score ->
  Z.of_nat k < Score.countoff score ->
  (exists sk,
     advanceMany later k
       (play now (newServer score repeatSong oscEnabled midiEnabled))
     = Some sk
     /\ inCountoff sk = true
     /\ getAbsoluteBarNumber sk = Some (- (Score.countoff score - Z.of_nat k)))
  /\ exists s',
       advanceMany later (Z.to_nat (Score.countoff score))
         (play now (newServer score repeatSong oscEnabled midiEnabled))
       = Some s'
       /\ inCountoff s' = false
       /\ getAbsoluteBarNumber s' = Some 1.
Proof.
  intros Hc Hk.
  set (s := play now (newServer score repeatSong oscEnabled midiEnabled)).
  assert (Hs : inCountoff s = true
               /\ countoffBarsRemaining s = Score.countoff score).
  { subst s. unfold play, startMidiClock. cbn.
    destruct (Z.ltb_spec 0 (Score.countoff score)); [|lia].
    destruct midiEnabled; cbn; split; reflexivity. }
  destruct Hs as [Hco Hrem].
  destruct (countoff_completions later
              (Z.to_nat (Score.countoff score) - 1) s Hco ltac:(lia))
    as [Hbefore Hend].
  split.
  - destruct (Hbefore k ltac:(lia)) as (sk & Hadv & Hcok & Habs).
    exists sk. split; [assumption|]. split; [assumption|].
    rewrite Habs. f_equal; lia.
  - destruct Hend as (s' & Hadv & Hco' & Habs).
    exists s'. replace (Z.to_nat (Score.countoff score))
      with (S (Z.to_nat (Score.countoff score) - 1)) by lia.
    split; [assumption|]. split; assumption.
Qed.

Lemma countoff_lasts_its_bars_witness :
  (exists sk,
     advanceMany 5 1 (play 0 (newServer countoffScore false false false))
     = Some sk
     /\ inCountoff sk = true
     /\ getAbsoluteBarNumber sk
        = Some (- (Score.countoff countoffScore - Z.of_nat 1)))
  /\ exists s',
       advanceMany 5 (Z.to_nat (Score.countoff countoffScore))
         (play 0 (newServer countoffScore false false false))
       = Some s'
       /\ inCountoff s' = false
       /\ getAbsoluteBarNumber s' = Some 1.
Proof.
  apply (countoff_lasts_its_bars countoffScore false false false 0 5 1);
    vm_compute; [discriminate|reflexivity].
Defined.

(** ** Seeks outside the score, positions outside the index *)

Lemma seekLoop_past sections :
  forall remaining si0,
    sumBars sections < remaining ->
    seekLoop sections remaining si0
    = (remaining - sumBars sections, si0 + len sections).
Proof.
  induction sections as [|sec rest IH]; intros remaining si0 Hr.
  - cbn. f_equal; lia.
  - cbn [seekLoop sumBars] in *. pose proof (sumBars_nonneg rest).
    destruct (Z.leb_spec remaining (len (Sect.bars sec))); [lia|].
    rewrite IH by lia. rewrite len_cons. f_equal; lia.
Qed.

Lemma index_None_outside {A : Type} (l : list A) (i : Z) :
  i < 0 \/ len l <= i -> index l i = None.
Proof.
  intros H. destruct (index l i) as [x|] eqn:Hx; [|reflexivity].
  pose proof (index_Some_range _ _ _ Hx). lia.
Qed.

(** X7: [seekToBar] with a bar number past the end of a score that has
    a section does not stop at the end: it lands in the last section, on
    the offset n - totalBars - 1, which [getAbsoluteBarNumber] reports as
    bar n minus the bars of the last section; when n exceeds totalBars by
    no more than the bars of the last section this is a bar of the
    score. *)
Theorem seek_past_end_lands_in_last_section now s n lastSection :
  index (Score.sections (scoreData s))
    (len (Score.sections (scoreData s)) - 1) = Some lastSection ->
  totalBars (scoreData s) < n ->
  currentSectionIndex (seekToBar now n s)
  = len (Score.sections (scoreData s)) - 1
  /\ currentBarInSection (seekToBar now n s) = n - totalBars (scoreData s) - 1
  /\ getAbsoluteBarNumber (seekToBar now n s)
     = Some (n - len (Sect.bars lastSection))
  /\ (n - totalBars (scoreData s) <= len (Sect.bars lastSection) ->
      validPosition (seekToBar now n s)).
Proof.
  intros Hlast Hn. rewrite totalBars_sum in *.
  pose proof (index_Some_range _ _ _ Hlast) as Hr.
  destruct (seekToBar_fields now n s) as (Hsi & Hbi & Hco & _ & _ & Hsd & _).
  rewrite (seekLoop_past _ n 0 Hn) in Hsi, Hbi. cbn [fst snd] in Hsi, Hbi.
  rewrite Z.min_r in Hsi by lia.
  destruct (index_Some_nth _ _ _ Hlast) as [Hnth _].
  destruct (barsBefore_Some _ _ _ Hnth) as (before & Hb & _ & _).
  assert (Hlast' : index (Score.sections (scoreData (seekToBar now n s)))
                     (currentSectionIndex (seekToBar now n s))
                   = Some lastSection) by (rewrite Hsd, Hsi; exact Hlast).
  assert (Hb' : barsBefore (Score.sections (scoreData (seekToBar now n s)))
                  (Z.to_nat (currentSectionIndex (seekToBar now n s)))
                = Some before) by (rewrite Hsd, Hsi; exact Hb).
  pose proof (at_end_is_total _ lastSection before Hlast' Hb'
                ltac:(rewrite Hsd, Hsi; lia)) as Htot.
  rewrite Hsd, totalBars_sum in Htot.
  split; [exact Hsi|]. split; [exact Hbi|]. split.
  - unfold getAbsoluteBarNumber. rewrite Hco, Hb', Hbi. f_equal. lia.
  - intros Hfit. exists lastSection. split; [exact Hlast'|]. rewrite Hbi. lia.
Qed.

Lemma seek_past_end_lands_in_last_section_witness :
  currentSectionIndex (seekToBar 0 6 twoSectionsServer)
  = len (Score.sections (scoreData twoSectionsServer)) - 1
  /\ currentBarInSection (seekToBar 0 6 twoSectionsServer)
     = 6 - totalBars (scoreData twoSectionsServer) - 1
  /\ getAbsoluteBarNumber (seekToBar 0 6 twoSectionsServer)
     = Some (6 - len (Sect.bars (Sect.mk "B" 200 fourFour 2
                                   [plainBar; plainBar; plainBar])))
  /\ (6 - totalBars (scoreData twoSectionsServer)
      <= len (Sect.bars (Sect.mk "B" 200 fourFour 2
                           [plainBar; plainBar; plainBar])) ->
      validPosition (seekToBar 0 6 twoSectionsServer)).
Proof.
  apply (seek_past_end_lands_in_last_section 0 twoSectionsServer 6
           (Sect.mk "B" 200 fourFour 2 [plainBar; plainBar; plainBar]));
    [by_computation|vm_compute; reflexivity].
Defined.

(** The tick of a playing server whose position is not in the index. *)
Lemma tick_off_index now s abs :
  isPlaying s = true ->
  inCountoff s = false ->
  getAbsoluteBarNumber s = Some abs ->
  abs < 1 \/ len (flatBars s) < abs ->
  tick now s = Some (stopPlayback s).
Proof.
  intros Hp Hco Habs Hout. unfold tick, getCurrentBarInfo.
  rewrite Hp, Hco, Habs. cbn [negb].
  rewrite index_None_outside by lia. reflexivity.
Qed.

(** X8: when a playing server, outside the countoff, is on a bar number
    that is not in the index (below 1 or above the number of bars), the
    next timer tick ends playback: it runs [stopPlayback], which resets the
    position to bar 1 and emits "playback-stopped", and the song-end
    callback is not called. *)
Theorem tick_off_the_index_stops now s abs :
  isPlaying s = true ->
  inCountoff s = false ->
  getAbsoluteBarNumber s = Some abs ->
  abs < 1 \/ len (flatBars s) < abs ->
  exists s',
    tick now s = Some s'
    /\ isPlaying s' = false
    /\ getAbsoluteBarNumber s' = Some 1
    /\ barStartTime s' = None
    /\ events s'
       = events s ++ (if midiOutput s then [MidiSend 0xFC] else [])
         ++ [IoEmit "playback-stopped"].
Proof.
  intros Hp Hco Habs Hout.
  exists (stopPlayback s). split; [exact (tick_off_index now s abs Hp Hco Habs Hout)|].
  destruct (stopPlayback_fields s)
    as (A & B & C & D & E & _ & _ & _ & _ & F).
  split; [exact A|]. split; [|split; [exact E|exact F]].
  unfold getAbsoluteBarNumber. rewrite B, C, D. reflexivity.
Qed.

Lemma tick_off_the_index_stops_witness :
  exists s',
    tick 50 (seekToBar 0 9 (play 0 twoSectionsServer)) = Some s'
    /\ isPlaying s' = false
    /\ getAbsoluteBarNumber s' = Some 1
    /\ barStartTime s' = None
    /\ events s'
       = events (seekToBar 0 9 (play 0 twoSectionsServer))
         ++ (if midiOutput (seekToBar 0 9 (play 0 twoSectionsServer))
             then [MidiSend 0xFC] else [])
         ++ [IoEmit "playback-stopped"].
Proof.
  apply (tick_off_the_index_stops 50
           (seekToBar 0 9 (play 0 twoSectionsServer)) 6);
    try by_computation.
  right. vm_compute. reflexivity.
Defined.

(** X9: [seekToBar] with a bar number n <= 0 leaves the countoff and puts
    the server on the offset n - 1 of section 0, which
    [getAbsoluteBarNumber] reports as bar n; no bar is current there, and
    a playing server is stopped by its next timer tick. *)
Theorem seek_before_first_bar now s n :
  n <= 0 ->
  inCountoff (seekToBar now n s) = false
  /\ currentBarInSection (seekToBar now n s) = n - 1
  /\ getAbsoluteBarNumber (seekToBar now n s) = Some n
  /\ getCurrentBarInfo (seekToBar now n s) = Some None
  /\ (isPlaying s = true ->
      forall later,
        tick later (seekToBar now n s)
        = Some (stopPlayback (seekToBar now n s))).
Proof.
  intros Hn.
  destruct (seekToBar_fields now n s)
    as (Hsi & Hbi & Hco & _ & _ & Hsd & _ & Hp & _).
  assert (Hloop : seekLoop (Score.sections (scoreData s)) n 0 = (n, 0)).
  { destruct (Score.sections (scoreData s)) as [|sec rest]; [reflexivity|].
    cbn [seekLoop]. pose proof (len_nonneg (Sect.bars sec)).
    destruct (Z.leb_spec n (len (Sect.bars sec))); [reflexivity|lia]. }
  rewrite Hloop in Hsi, Hbi. cbn [fst snd] in Hsi, Hbi.
  assert (Hsi' : Z.to_nat (currentSectionIndex (seekToBar now n s)) = 0%nat).
  { rewrite Hsi. pose proof (len_nonneg (Score.sections (scoreData s))). lia. }
  assert (Habs : getAbsoluteBarNumber (seekToBar now n s) = Some n).
  { unfold getAbsoluteBarNumber. rewrite Hco, Hsi', Hbi.
    cbn [barsBefore]. f_equal. lia. }
  split; [exact Hco|]. split; [exact Hbi|]. split; [exact Habs|]. split.
  - unfold getCurrentBarInfo. rewrite Hco, Habs.
    rewrite index_None_outside by lia. reflexivity.
  - intros Hplay later.
    apply (tick_off_index later _ n); [congruence|exact Hco|exact Habs|lia].
Qed.

Lemma seek_before_first_bar_witness :
  inCountoff (seekToBar 3 0 playingOnBarTwo) = false
  /\ currentBarInSection (seekToBar 3 0 playingOnBarTwo) = 0 - 1
  /\ getAbsoluteBarNumber (seekToBar 3 0 playingOnBarTwo) = Some 0
  /\ getCurrentBarInfo (seekToBar 3 0 playingOnBarTwo) = Some None
  /\ (isPlaying playingOnBarTwo = true ->
      forall later,
        tick later (seekToBar 3 0 playingOnBarTwo)
        = Some (stopPlayback (seekToBar 3 0 playingOnBarTwo))).
Proof.
  apply (seek_before_first_bar 3 playingOnBarTwo 0). lia.
Defined.

(** ** What every server keeps *)

Lemma sameControl_refl s : sameControl s s.
Proof. solve_sameControl. Qed.

Lemma sameControl_trans s1 s2 s3 :
  sameControl s1 s2 -> sameControl s2 s3 -> sameControl s1 s3.
Proof.
  unfold sameControl.
  intros (A1 & B1 & C1 & D1 & E1 & F1) (A2 & B2 & C2 & D2 & E2 & F2).
  conjuncts; try congruence.
  intros H. destruct (F2 H) as [H2 R2]. destruct (F1 H2) as [H1 R1].
  split; congruence.
Qed.

Lemma control_sameControl s s' :
  serverInvariant s -> sameControl s s' -> serverInvariant s'.
Proof.
  intros (A & B & C & D) (A' & B' & C' & D' & E' & F').
  unfold serverInvariant. conjuncts; try congruence.
  - intros H. rewrite E'. apply C. congruence.
  - intros H. destruct (F' H) as [H1 R]. rewrite R. auto.
Qed.

Lemma sameControl_emit e s : sameControl s (emit e s).
Proof. solve_sameControl. Qed.

Lemma sameControl_seekToBar now n s : sameControl s (seekToBar now n s).
Proof.
  unfold seekToBar. destruct (seekLoop _ n 0). solve_sameControl.
Qed.

Lemma sameControl_setLoop l s : sameControl s (setLoop l s).
Proof. unfold setLoop. solve_sameControl. Qed.

Lemma sameControl_setRepeat repeat s : sameControl s (setRepeat repeat s).
Proof. unfold setRepeat. solve_sameControl. Qed.

Lemma sameControl_midiOutputOpened s : sameControl s (midiOutputOpened s).
Proof. unfold midiOutputOpened. solve_sameControl. Qed.

Lemma sameControl_registerOnSongEnd s : sameControl s (registerOnSongEnd s).
Proof. unfold registerOnSongEnd. solve_sameControl. Qed.

Lemma sameControl_midiPulse s : sameControl s (midiPulse s).
Proof. unfold midiPulse. solve_sameControl. Qed.

Lemma sameControl_updateOscSettings enabled created s :
  sameControl s (updateOscSettings enabled created s).
Proof. unfold updateOscSettings. solve_sameControl. Qed.

Lemma sameControl_oscTrigger barInfo s : sameControl s (oscTrigger barInfo s).
Proof. unfold oscTrigger, sendOscMessage. solve_sameControl. Qed.

Lemma sameControl_set_currentBeat v s : sameControl s (set_currentBeat v s).
Proof. solve_sameControl. Qed.

Lemma control_stopPlayback s :
  serverInvariant s -> serverInvariant (stopPlayback s).
Proof.
  intros (A & B & C & D).
  destruct (stopPlayback_fields s)
    as (Hp & Hc & _ & _ & _ & _ & Hu & Hsd & Hfb & _).
  unfold serverInvariant. conjuncts; try congruence.
  intros _. unfold stopPlayback, stopMidiClock. cbn.
  destruct (midiClockInterval s) eqn:Hi; cbn; destruct (midiOutput s); cbn;
    rewrite ?Hi; reflexivity.
Qed.

Lemma control_pause s : serverInvariant s -> serverInvariant (pause s).
Proof.
  intros (A & B & C & D). unfold pause.
  destruct (isPlaying s) eqn:Hp; cbn [negb];
    [|unfold serverInvariant; conjuncts; auto; congruence].
  unfold serverInvariant, stopMidiClock in *.
  repeat (cbn; break_branch); cbn; conjuncts; auto.
Qed.

Lemma control_play now s : serverInvariant s -> serverInvariant (play now s).
Proof.
  intros (A & B & C & D). unfold play.
  destruct (isPlaying s) eqn:Hp;
    [unfold serverInvariant; conjuncts; auto; congruence|].
  unfold serverInvariant, startMidiClock, sendMidiContinue, stopMidiClock.
  repeat (cbn; break_branch); cbn; conjuncts; auto;
    try (intros; discriminate); intros; lia.
Qed.

Lemma control_new score repeatSong oscEnabled midiEnabled :
  serverInvariant (newServer score repeatSong oscEnabled midiEnabled).
Proof.
  unfold serverInvariant. cbn. conjuncts; auto. intros; discriminate.
Qed.

Lemma control_updateScore newScoreData s :
  serverInvariant s -> serverInvariant (updateScore newScoreData s).
Proof.
  intros (A & B & C & D). unfold serverInvariant, updateScore. cbn.
  conjuncts; auto.
Qed.

Lemma control_updateMidiSettings enabled outputPort opened s :
  serverInvariant s ->
  serverInvariant (updateMidiSettings enabled outputPort opened s).
Proof.
  intros (A & B & C & D).
  unfold serverInvariant, updateMidiSettings, stopMidiClock.
  repeat (cbn; break_branch); cbn; conjuncts; auto.
Qed.

Lemma control_updateMidiClockTempo tempo s :
  serverInvariant s -> serverInvariant (updateMidiClockTempo tempo s).
Proof.
  intros (A & B & C & D).
  unfold serverInvariant, updateMidiClockTempo, startMidiClock, stopMidiClock.
  repeat (cbn; break_branch); cbn in *; conjuncts; auto;
    try (intros; discriminate); try congruence;
    intros Hf; rewrite Hf in *; cbn in *; rewrite ?orb_true_r in *;
    discriminate.
Qed.

Lemma control_countoffAdvance now s :
  serverInvariant s -> serverInvariant (countoffAdvance now s).
Proof.
  intros (A & B & C & D). unfold serverInvariant, countoffAdvance.
  cbn -[Z.sub].
  destruct (Z.leb_spec (countoffBarsRemaining s - 1) 0); cbn -[Z.sub];
    conjuncts; auto; try (intros; discriminate). intros; lia.
Qed.

Lemma control_plain now s s' :
  serverInvariant s -> plainAdvance now s = Some s' -> serverInvariant s'.
Proof.
  intros Hinv Hadv. unfold plainAdvance in Hadv.
  destruct (index _ _) as [section|]; [|discriminate].
  destruct (_ <? _).
  - injection Hadv as <-. apply (control_sameControl s); [assumption|].
    solve_sameControl.
  - destruct (_ <? _).
    + injection Hadv as <-. apply (control_sameControl s); [assumption|].
      solve_sameControl.
    + set (s1 := if onSongEnd s then emit SongEnd s else s) in Hadv.
      assert (K : sameControl s s1)
        by (subst s1; destruct (onSongEnd s);
            [apply sameControl_emit|apply sameControl_refl]).
      pose proof (control_sameControl s s1 Hinv K) as Hinv1.
      destruct (repeatSong s1); injection Hadv as <-.
      * apply (control_sameControl s1); [assumption|]. solve_sameControl.
      * apply control_stopPlayback. assumption.
Qed.

Lemma control_advance now s s' :
  serverInvariant s -> advanceToNextBar now s = Some s' -> serverInvariant s'.
Proof.
  intros Hinv Hadv. unfold advanceToNextBar in Hadv.
  destruct (inCountoff s).
  - injection Hadv as <-. apply control_countoffAdvance. assumption.
  - destruct (getAbsoluteBarNumber s) as [abs|]; [|discriminate].
    destruct (redirectOf _) as [target|].
    + injection Hadv as <-. apply (control_sameControl s); [assumption|].
      apply sameControl_seekToBar.
    + destruct (_ && _).
      * injection Hadv as <-. apply (control_sameControl s); [assumption|].
        eapply sameControl_trans; [|apply sameControl_seekToBar].
        solve_sameControl.
      * eapply control_plain; eassumption.
Qed.

Lemma control_tick_step now s s' :
  serverInvariant s -> tick now s = Some s' -> serverInvariant s'.
Proof.
  intros Hinv Htick. unfold tick in Htick.
  destruct (isPlaying s); cbn [negb] in Htick;
    [|injection Htick as <-; assumption].
  destruct (getCurrentBarInfo s) as [[barInfo|]|]; [| |discriminate].
  - cbv zeta in Htick.
    match type of Htick with
    | match ?m with _ => _ end = _ => destruct m as [s1|] eqn:Hm
    end; [|discriminate].
    injection Htick as <-.
    assert (serverInvariant s1).
    { destruct (Qle_bool _ _).
      - eapply control_advance; eassumption.
      - destruct (negb _); injection Hm as <-; [|assumption].
        apply (control_sameControl s); [assumption|].
        apply sameControl_set_currentBeat. }
    apply (control_sameControl s1); [assumption|].
    eapply sameControl_trans; [apply sameControl_oscTrigger|apply sameControl_emit].
  - injection Htick as <-. apply control_stopPlayback. assumption.
Qed.

Lemma control_stop s : serverInvariant s -> serverInvariant (stop s).
Proof.
  intros H. apply control_pause in H. revert H. unfold stop.
  generalize (pause s). clear s. intros s (A & B & C & D).
  unfold serverInvariant, stopMidiClock.
  repeat (cbn; break_branch); cbn; conjuncts; auto.
Qed.

Lemma serverState_invariant s : serverState s -> serverInvariant s.
Proof.
  induction 1.
  - apply control_new.
  - eapply control_sameControl; [eassumption|apply sameControl_midiOutputOpened].
  - eapply control_sameControl; [eassumption|apply sameControl_registerOnSongEnd].
  - apply control_play; assumption.
  - apply control_pause; assumption.
  - apply control_stopPlayback; assumption.
  - eapply control_sameControl; [eassumption|apply sameControl_seekToBar].
  - eapply control_sameControl; [eassumption|apply sameControl_setLoop].
  - eapply control_sameControl; [eassumption|apply sameControl_setRepeat].
  - apply control_updateScore; assumption.
  - eapply control_sameControl; [eassumption|apply sameControl_updateOscSettings].
  - apply control_updateMidiSettings; assumption.
  - apply control_updateMidiClockTempo; assumption.
  - eapply control_advance; eassumption.
  - eapply control_tick_step; eassumption.
  - eapply control_sameControl; [eassumption|apply sameControl_midiPulse].
  - apply control_stop; assumption.
Qed.

Lemma serverState_pausedServer : serverState pausedServer.
Proof.
  unfold pausedServer. apply state_pause, state_seekToBar, state_play,
    state_midiOutputOpened, state_new.
Qed.

Lemma serverState_countoffServer : serverState countoffServer.
Proof. unfold countoffServer. apply state_play, state_new. Qed.

(** X10: whatever commands, settings changes, score replacements and
    timer ticks a server has seen, its index is the one
    [buildBarStructure] gives for its current score, and the entry at
    position i has absolute number i + 1. *)
Theorem index_follows_score s :
  serverState s ->
  flatBars s = buildBarStructure (scoreData s)
  /\ len (flatBars s) = sumBars (Score.sections (scoreData s))
  /\ forall i fb,
       index (flatBars s) i = Some fb -> FlatBar.absoluteNumber fb = i + 1.
Proof.
  intros Hs. destruct (serverState_invariant s Hs) as (Hflat & _).
  split; [exact Hflat|]. split.
  - rewrite Hflat. apply totalBars_sum.
  - intros i fb Hidx. rewrite Hflat, buildBarStructure_eq in Hidx.
    destruct (flatOfSections_index_inv _ _ _ _ _ Hidx)
      as (k & section & j & bar & before & _ & _ & _ & Hi & ->).
    cbn [FlatBar.absoluteNumber flatBarOf]. lia.
Qed.

Lemma index_follows_score_witness :
  flatBars editedWhilePaused = buildBarStructure (scoreData editedWhilePaused)
  /\ len (flatBars editedWhilePaused)
     = sumBars (Score.sections (scoreData editedWhilePaused))
  /\ forall i fb,
       index (flatBars editedWhilePaused) i = Some fb ->
       FlatBar.absoluteNumber fb = i + 1.
Proof.
  apply (index_follows_score editedWhilePaused).
  unfold editedWhilePaused. apply state_updateScore.
  exact serverState_pausedServer.
Defined.

(** X11: in every server the 60 Hz timer is set exactly when the server is
    playing, and the MIDI pulse timer is not set when it is not playing:
    pause and stop leave no timer behind. *)
Theorem timers_only_while_playing s :
  serverState s ->
  updateInterval s = isPlaying s
  /\ (isPlaying s = false -> midiClockInterval s = None).
Proof.
  intros Hs. destruct (serverState_invariant s Hs) as (_ & A & B & _).
  split; assumption.
Qed.

Lemma timers_only_while_playing_witness :
  updateInterval pausedServer = isPlaying pausedServer
  /\ (isPlaying pausedServer = false -> midiClockInterval pausedServer = None).
Proof.
  apply (timers_only_while_playing pausedServer).
  exact serverState_pausedServer.
Defined.

(** X12: in every server that is in the countoff at least one countoff bar
    is left, so that [getAbsoluteBarNumber] is negative there: it is minus
    the number of countoff bars left. *)
Theorem countoff_position_is_negative s :
  serverState s ->
  inCountoff s = true ->
  1 <= countoffBarsRemaining s
  /\ getAbsoluteBarNumber s = Some (- countoffBarsRemaining s)
  /\ - countoffBarsRemaining s < 0.
Proof.
  intros Hs Hco. destruct (serverState_invariant s Hs) as (_ & _ & _ & D).
  specialize (D Hco). split; [exact D|]. split; [|lia].
  unfold getAbsoluteBarNumber. rewrite Hco. reflexivity.
Qed.

Lemma countoff_position_is_negative_witness :
  1 <= countoffBarsRemaining countoffServer
  /\ getAbsoluteBarNumber countoffServer
     = Some (- countoffBarsRemaining countoffServer)
  /\ - countoffBarsRemaining countoffServer < 0.
Proof.
  apply (countoff_position_is_negative countoffServer).
  - exact serverState_countoffServer.
  - vm_compute. reflexivity.
Defined.

(** ** Pause, resume, stop *)

Lemma pause_fields s :
  isPlaying s = true ->
  isPlaying (pause s) = false
  /\ barStartTime (pause s) = barStartTime s
  /\ currentSectionIndex (pause s) = currentSectionIndex s
  /\ currentBarInSection (pause s) = currentBarInSection s
  /\ currentBeat (pause s) = currentBeat s
  /\ inCountoff (pause s) = inCountoff s
  /\ countoffBarsRemaining (pause s) = countoffBarsRemaining s
  /\ lastTriggeredBar (pause s) = lastTriggeredBar s
  /\ scoreData (pause s) = scoreData s
  /\ midiEnabled (pause s) = midiEnabled s
  /\ midiOutput (pause s) = midiOutput s
  /\ events (pause s)
     = events s ++ (if midiOutput s then [MidiSend 0xFC] else [])
       ++ [IoEmit "playback-paused"].
Proof.
  intros Hp. unfold pause, stopMidiClock. rewrite Hp. cbn.
  destruct (midiClockInterval s) eqn:Hi; cbn;
    destruct (midiOutput s) eqn:Ho; cbn; rewrite ?Ho; cbn;
    rewrite <- ?app_assoc; conjuncts; reflexivity.
Qed.

(** What [play] leaves alone on a server that is not playing and whose
    bar has a start time. *)
Lemma play_resume_fields now s t :
  isPlaying s = false ->
  barStartTime s = Some t ->
  t <> 0 ->
  isPlaying (play now s) = true
  /\ updateInterval (play now s) = true
  /\ barStartTime (play now s) = Some t
  /\ currentSectionIndex (play now s) = currentSectionIndex s
  /\ currentBarInSection (play now s) = currentBarInSection s
  /\ currentBeat (play now s) = currentBeat s
  /\ inCountoff (play now s) = inCountoff s
  /\ countoffBarsRemaining (play now s) = countoffBarsRemaining s
  /\ lastTriggeredBar (play now s) = lastTriggeredBar s
  /\ scoreData (play now s) = scoreData s.
Proof.
  intros Hp Hb Ht.
  assert (Htr : truthy (Some t) = true).
  { unfold truthy. destruct (Z.eqb_spec t 0); [contradiction|reflexivity]. }
  unfold play. rewrite Hp.
  cbn -[sendMidiContinue startMidiClock getCurrentTempo truthy].
  rewrite !Hb, !Htr.
  cbn -[sendMidiContinue startMidiClock getCurrentTempo truthy].
  rewrite ?Hb, ?Htr.
  cbn -[sendMidiContinue startMidiClock getCurrentTempo truthy].
  unfold startMidiClock, sendMidiContinue, stopMidiClock.
  repeat (cbn -[getCurrentTempo truthy]; break_branch);
    cbn -[getCurrentTempo truthy]; rewrite ?Hb; conjuncts; reflexivity.
Qed.

(** X13: pausing a playing server and playing it again keeps the whole
    transport: section, bar, beat, countoff state and OSC marker are the
    same and no countoff is started.  The start time of the bar is kept
    too, so the time spent paused counts as time elapsed in the bar. *)
Theorem pause_then_play_keeps_transport now s t :
  isPlaying s = true ->
  barStartTime s = Some t ->
  t <> 0 ->
  isPlaying (play now (pause s)) = true
  /\ updateInterval (play now (pause s)) = true
  /\ barStartTime (play now (pause s)) = Some t
  /\ currentSectionIndex (play now (pause s)) = currentSectionIndex s
  /\ currentBarInSection (play now (pause s)) = currentBarInSection s
  /\ currentBeat (play now (pause s)) = currentBeat s
  /\ inCountoff (play now (pause s)) = inCountoff s
  /\ countoffBarsRemaining (play now (pause s)) = countoffBarsRemaining s
  /\ lastTriggeredBar (play now (pause s)) = lastTriggeredBar s
  /\ getAbsoluteBarNumber (play now (pause s)) = getAbsoluteBarNumber s.
Proof.
  intros Hp Hb Ht.
  destruct (pause_fields s Hp)
    as (P1 & P2 & P3 & P4 & P5 & P6 & P7 & P8 & P9 & _).
  destruct (play_resume_fields now (pause s) t P1 ltac:(congruence) Ht)
    as (R1 & R2 & R3 & R4 & R5 & R6 & R7 & R8 & R9 & R10).
  conjuncts; try congruence.
  unfold getAbsoluteBarNumber. rewrite R7, R8, R10, R4, R5, P6, P7, P9, P3, P4.
  reflexivity.
Qed.

Lemma pause_then_play_keeps_transport_witness :
  isPlaying (play 9000 (pause resumable)) = true
  /\ updateInterval (play 9000 (pause resumable)) = true
  /\ barStartTime (play 9000 (pause resumable)) = Some 4000
  /\ currentSectionIndex (play 9000 (pause resumable))
     = currentSectionIndex resumable
  /\ currentBarInSection (play 9000 (pause resumable))
     = currentBarInSection resumable
  /\ currentBeat (play 9000 (pause resumable))
     = currentBeat resumable
  /\ inCountoff (play 9000 (pause resumable))
     = inCountoff resumable
  /\ countoffBarsRemaining (play 9000 (pause resumable))
     = countoffBarsRemaining resumable
  /\ lastTriggeredBar (play 9000 (pause resumable))
     = lastTriggeredBar resumable
  /\ getAbsoluteBarNumber (play 9000 (pause resumable))
     = getAbsoluteBarNumber resumable.
Proof.
  apply (pause_then_play_keeps_transport 9000 resumable 4000);
    [by_computation|by_computation|discriminate].
Defined.

Lemma startMidiClock_off tempo s :
  midiEnabled s && midiOutput s = false -> startMidiClock tempo s = s.
Proof.
  intros H. unfold startMidiClock.
  destruct (midiEnabled s), (midiOutput s); try discriminate; reflexivity.
Qed.

Lemma stopPlayback_midi s :
  midiEnabled (stopPlayback s) = midiEnabled s
  /\ midiOutput (stopPlayback s) = midiOutput s
  /\ currentBeat (stopPlayback s) = 0.
Proof.
  unfold stopPlayback, stopMidiClock. cbn.
  destruct (midiClockInterval s); cbn; destruct (midiOutput s) eqn:Ho; cbn;
    rewrite ?Ho; conjuncts; reflexivity.
Qed.

(** [startMidiClock] touches nothing of the transport; it sends Stop and
    Start when MIDI is enabled and the output open, and nothing
    otherwise. *)
Lemma startMidiClock_transport tempo s :
  isPlaying (startMidiClock tempo s) = isPlaying s
  /\ barStartTime (startMidiClock tempo s) = barStartTime s
  /\ inCountoff (startMidiClock tempo s) = inCountoff s
  /\ currentSectionIndex (startMidiClock tempo s) = currentSectionIndex s
  /\ currentBarInSection (startMidiClock tempo s) = currentBarInSection s
  /\ currentBeat (startMidiClock tempo s) = currentBeat s
  /\ countoffBarsRemaining (startMidiClock tempo s) = countoffBarsRemaining s
  /\ events (startMidiClock tempo s)
     = events s
       ++ (if midiEnabled s && midiOutput s
           then [MidiSend 0xFC; MidiSend 0xFA] else []).
Proof.
  unfold startMidiClock, stopMidiClock.
  destruct (midiEnabled s) eqn:He; cbn;
    destruct (midiOutput s) eqn:Ho; cbn; rewrite ?app_nil_r;
    try (conjuncts; reflexivity).
  destruct (midiClockInterval s); cbn; rewrite Ho; cbn;
    rewrite <- ?app_assoc; conjuncts; reflexivity.
Qed.

(** [play] on a server that is not playing and has no bar start time. *)
Lemma play_fresh now s :
  isPlaying s = false ->
  barStartTime s = None ->
  isPlaying (play now s) = true
  /\ barStartTime (play now s) = Some now
  /\ inCountoff (play now s)
     = (if 0 <? Score.countoff (scoreData s) then true else inCountoff s)
  /\ currentSectionIndex (play now s)
     = (if 0 <? Score.countoff (scoreData s) then 0 else currentSectionIndex s)
  /\ currentBarInSection (play now s)
     = (if 0 <? Score.countoff (scoreData s) then 0 else currentBarInSection s)
  /\ currentBeat (play now s)
     = (if 0 <? Score.countoff (scoreData s) then 0 else currentBeat s)
  /\ countoffBarsRemaining (play now s)
     = (if 0 <? Score.countoff (scoreData s)
        then Score.countoff (scoreData s) else countoffBarsRemaining s)
  /\ events (play now s)
     = events s
       ++ (if midiEnabled s && midiOutput s
           then [MidiSend 0xFC; MidiSend 0xFA] else [])
       ++ [IoEmit "playback-started"].
Proof.
  intros Hp Hb. unfold play. rewrite Hp.
  cbn -[startMidiClock getCurrentTempo]. rewrite !Hb.
  cbn -[startMidiClock getCurrentTempo].
  destruct (0 <? Score.countoff (scoreData s));
    cbn -[startMidiClock getCurrentTempo]; rewrite ?Hb;
    cbn -[startMidiClock getCurrentTempo];
    match goal with
    | |- context [startMidiClock ?t ?x] =>
        destruct (startMidiClock_transport t x)
          as (A & B & C & D & E & F & G & H);
        rewrite A, B, C, D, E, F, G, H
    end; cbn; rewrite <- ?app_assoc; conjuncts; reflexivity.
Qed.

(** X14: [play] after [stopPlayback] starts the song over: the bar starts
    now at section 0, bar 0, beat 0, in the countoff exactly when the
    score asks for one, with all its bars left; the MIDI output, when
    enabled and open, receives Stop and Start and no Continue. *)
Theorem play_after_stop_starts_over now s :
  isPlaying (play now (stopPlayback s)) = true
  /\ barStartTime (play now (stopPlayback s)) = Some now
  /\ currentSectionIndex (play now (stopPlayback s)) = 0
  /\ currentBarInSection (play now (stopPlayback s)) = 0
  /\ currentBeat (play now (stopPlayback s)) = 0
  /\ inCountoff (play now (stopPlayback s))
     = (0 <? Score.countoff (scoreData s))
  /\ (inCountoff (play now (stopPlayback s)) = true ->
      countoffBarsRemaining (play now (stopPlayback s))
      = Score.countoff (scoreData s))
  /\ events (play now (stopPlayback s))
     = events (stopPlayback s)
       ++ (if midiEnabled s && midiOutput s
           then [MidiSend 0xFC; MidiSend 0xFA] else [])
       ++ [IoEmit "playback-started"].
Proof.
  destruct (stopPlayback_fields s)
    as (Hp & Hc & Hsi & Hbi & Hb & _ & _ & Hsd & _ & _).
  destruct (stopPlayback_midi s) as (He & Ho & Hbeat).
  destruct (play_fresh now (stopPlayback s) Hp Hb)
    as (A & B & C & D & E & F & G & H).
  rewrite Hsd, Hc, Hsi, Hbi, Hbeat, He, Ho in *.
  rewrite A, B, C, D, E, F, G, H.
  destruct (0 <? Score.countoff (scoreData s)); conjuncts; try reflexivity.
  intros; discriminate.
Qed.

(** ** The MIDI clock *)








(** The shape of [play] on a server that is not playing: the MIDI clock is
    started, after a Continue or not, with the tempo of the server as the
    countoff and start time were set. *)
Lemma play_shape now s :
  isPlaying s = false ->
  exists s2 x,
    play now s
    = emit (IoEmit "playback-started")
        (set_updateInterval true (startMidiClock (getCurrentTempo s2) x))
    /\ x = match barStartTime s with
           | Some _ => sendMidiContinue s2
           | None => s2
           end
    /\ midiEnabled s2 = midiEnabled s
    /\ midiOutput s2 = midiOutput s
    /\ events s2 = events s.
Proof.
  intros Hp. unfold play. rewrite Hp.
  destruct (barStartTime s) as [t|] eqn:Hb;
    cbn -[sendMidiContinue startMidiClock getCurrentTempo truthy];
    eexists; eexists; (split; [reflexivity|]);
    (split; [reflexivity|]);
    repeat (cbn -[truthy]; break_branch); conjuncts; reflexivity.
Qed.






(** ** Outputs that are switched off *)

Lemma midiQuiet_trans s1 s2 s3 :
  midiQuiet s1 s2 -> midiQuiet s2 s3 -> midiQuiet s1 s3.
Proof. unfold midiQuiet. intros [A B] [C D]. split; congruence. Qed.

Lemma midiQuiet_refl s : midiQuiet s s.
Proof. split; reflexivity. Qed.

Lemma midiQuiet_seekToBar now n s : midiQuiet s (seekToBar now n s).
Proof.
  unfold seekToBar. destruct (seekLoop _ n 0).
  unfold midiQuiet, midiLog. cbn. rewrite filter_app. cbn.
  rewrite app_nil_r. auto.
Qed.

Lemma midiQuiet_stopPlayback s :
  midiOutput s = false -> midiQuiet s (stopPlayback s).
Proof.
  intros Ho.
  destruct (stopPlayback_fields s) as (_&_&_&_&_&_&_&_&_& Hev).
  destruct (stopPlayback_midi s) as (_ & Ho' & _).
  split; [exact Ho'|]. unfold midiLog. rewrite Hev, Ho, !filter_app. cbn.
  rewrite app_nil_r. reflexivity.
Qed.

Lemma midiQuiet_countoffAdvance now s : midiQuiet s (countoffAdvance now s).
Proof. unfold countoffAdvance, midiQuiet, midiLog. repeat (cbn; break_branch); auto. Qed.

Lemma midiQuiet_plainAdvance now s s' :
  midiOutput s = false -> plainAdvance now s = Some s' -> midiQuiet s s'.
Proof.
  intros Ho Hadv. unfold plainAdvance in Hadv.
  destruct (index _ _) as [section|]; [|discriminate].
  destruct (_ <? _); [injection Hadv as <-; split; reflexivity|].
  destruct (_ <? _); [injection Hadv as <-; split; reflexivity|].
  set (s1 := if onSongEnd s then emit SongEnd s else s) in Hadv.
  assert (K : midiQuiet s s1).
  { subst s1. destruct (onSongEnd s); [|apply midiQuiet_refl].
    unfold midiQuiet, midiLog. cbn. rewrite filter_app. cbn.
    rewrite app_nil_r. auto. }
  destruct (repeatSong s1); injection Hadv as <-.
  - eapply midiQuiet_trans; [exact K|]. split; reflexivity.
  - eapply midiQuiet_trans; [exact K|]. apply midiQuiet_stopPlayback.
    destruct K as [K _]. congruence.
Qed.

Lemma midiQuiet_advanceToNextBar now s s' :
  midiOutput s = false -> advanceToNextBar now s = Some s' -> midiQuiet s s'.
Proof.
  intros Ho Hadv. unfold advanceToNextBar in Hadv.
  destruct (inCountoff s).
  - injection Hadv as <-. apply midiQuiet_countoffAdvance.
  - destruct (getAbsoluteBarNumber s); [|discriminate].
    destruct (redirectOf _).
    + injection Hadv as <-. apply midiQuiet_seekToBar.
    + destruct (_ && _).
      * injection Hadv as <-.
        eapply midiQuiet_trans; [|apply midiQuiet_seekToBar].
        split; reflexivity.
      * eapply midiQuiet_plainAdvance; eassumption.
Qed.

Lemma midiQuiet_oscTrigger barInfo s : midiQuiet s (oscTrigger barInfo s).
Proof.
  unfold oscTrigger, sendOscMessage, midiQuiet, midiLog.
  repeat (cbn; break_branch); cbn; rewrite ?filter_app; cbn;
    rewrite ?app_nil_r; auto.
Qed.

Lemma midiQuiet_emit_io name s : midiQuiet s (emit (IoEmit name) s).
Proof.
  unfold midiQuiet, midiLog. cbn. rewrite filter_app. cbn.
  rewrite app_nil_r. auto.
Qed.

Lemma midiQuiet_tick now s s' :
  midiOutput s = false -> tick now s = Some s' -> midiQuiet s s'.
Proof.
  intros Ho Htick. unfold tick in Htick.
  destruct (isPlaying s); cbn [negb] in Htick;
    [|injection Htick as <-; apply midiQuiet_refl].
  destruct (getCurrentBarInfo s) as [[barInfo|]|]; [| |discriminate].
  - cbv zeta in Htick.
    match type of Htick with
    | match ?m with _ => _ end = _ => destruct m as [s1|] eqn:Hm
    end; [|discriminate].
    injection Htick as <-.
    assert (midiQuiet s s1).
    { destruct (Qle_bool _ _).
      - eapply midiQuiet_advanceToNextBar; eassumption.
      - destruct (negb _); injection Hm as <-; split; reflexivity. }
    eapply midiQuiet_trans; [eassumption|].
    eapply midiQuiet_trans; [apply midiQuiet_oscTrigger|apply midiQuiet_emit_io].
  - injection Htick as <-. apply midiQuiet_stopPlayback. exact Ho.
Qed.

(** X17: a server without an open MIDI output sends no MIDI byte: [play],
    [pause], [stopPlayback], the pulse timer, a retiming, a bar completion
    and a timer tick all leave the MIDI bytes sent so far as they are,
    whether MIDI is enabled or not. *)
Theorem no_midi_without_output now tempo s :
  midiOutput s = false ->
  midiLog (play now s) = midiLog s
  /\ midiLog (pause s) = midiLog s
  /\ midiLog (stopPlayback s) = midiLog s
  /\ midiLog (midiPulse s) = midiLog s
  /\ midiLog (updateMidiClockTempo tempo s) = midiLog s
  /\ (forall s', advanceToNextBar now s = Some s' -> midiLog s' = midiLog s)
  /\ (forall s', tick now s = Some s' ->
        midiLog s' = midiLog s /\ midiOutput s' = false).
Proof.
  intros Ho. conjuncts.
  - destruct (isPlaying s) eqn:Hp; [unfold play; rewrite Hp; reflexivity|].
    destruct (play_shape now s Hp) as (s2 & x & -> & Hx & He2 & Ho2 & Hev).
    assert (Hox : x = s2).
    { rewrite Hx. destruct (barStartTime s); [|reflexivity].
      unfold sendMidiContinue. rewrite Ho2, Ho, orb_true_r. reflexivity. }
    subst x. rewrite Hox.
    rewrite startMidiClock_off by (rewrite Ho2, Ho; apply andb_false_r).
    unfold midiLog. cbn. rewrite filter_app, Hev. cbn.
    apply app_nil_r.
  - destruct (isPlaying s) eqn:Hp; [|unfold pause; rewrite Hp; reflexivity].
    destruct (pause_fields s Hp) as (_&_&_&_&_&_&_&_&_&_&_& Hev).
    unfold midiLog. rewrite Hev, Ho, !filter_app. cbn.
    rewrite app_nil_r. reflexivity.
  - apply (midiQuiet_stopPlayback s Ho).
  - unfold midiPulse. rewrite Ho. reflexivity.
  - unfold updateMidiClockTempo. rewrite Ho.
    rewrite orb_true_r. reflexivity.
  - intros s' H. apply (midiQuiet_advanceToNextBar now s s' Ho H).
  - intros s' H. destruct (midiQuiet_tick now s s' Ho H) as [A B].
    split; congruence.
Qed.

Lemma no_midi_without_output_witness :
  midiLog (play 5 resumable) = midiLog resumable
  /\ midiLog (pause resumable) = midiLog resumable
  /\ midiLog (stopPlayback resumable) = midiLog resumable
  /\ midiLog (midiPulse resumable) = midiLog resumable
  /\ midiLog (updateMidiClockTempo 90 resumable) = midiLog resumable
  /\ (forall s', advanceToNextBar 5 resumable = Some s' ->
        midiLog s' = midiLog resumable)
  /\ (forall s', tick 5 resumable = Some s' ->
        midiLog s' = midiLog resumable /\ midiOutput s' = false).
Proof.
  apply (no_midi_without_output 5 90 resumable). by_computation.
Defined.

(** ** Beats and subdivisions inside a bar *)












Lemma oscTrigger_fields barInfo s :
  currentBeat (oscTrigger barInfo s) = currentBeat s
  /\ currentSectionIndex (oscTrigger barInfo s) = currentSectionIndex s
  /\ currentBarInSection (oscTrigger barInfo s) = currentBarInSection s
  /\ barStartTime (oscTrigger barInfo s) = barStartTime s
  /\ isPlaying (oscTrigger barInfo s) = isPlaying s
  /\ inCountoff (oscTrigger barInfo s) = inCountoff s
  /\ countoffBarsRemaining (oscTrigger barInfo s) = countoffBarsRemaining s
  /\ scoreData (oscTrigger barInfo s) = scoreData s
  /\ flatBars (oscTrigger barInfo s) = flatBars s
  /\ oscEnabled (oscTrigger barInfo s) = oscEnabled s
  /\ oscClient (oscTrigger barInfo s) = oscClient s.
Proof.
  unfold oscTrigger, sendOscMessage.
  repeat (cbn; break_branch); cbn; conjuncts; reflexivity.
Qed.

(** A tick before the bar is over: the beat is set, the position stays. *)
Lemma tick_within_bar now s barInfo :
  isPlaying s = true ->
  getCurrentBarInfo s = Some (Some barInfo) ->
  (elapsedSince now s < barDurationOf s barInfo)%Q ->
  tick now s
  = Some (emit (IoEmit "state-update")
            (oscTrigger barInfo
               (if negb (newBeatOf now s barInfo =? currentBeat s)
                then set_currentBeat (newBeatOf now s barInfo) s
                else s))).
Proof.
  intros Hp Hb He.
  assert (Hle : Qle_bool (barDurationOf s barInfo) (elapsedSince now s)
                = false).
  { destruct (Qle_bool _ _) eqn:E; [|reflexivity].
    apply Qle_bool_iff in E. exfalso. exact (Qlt_not_le _ _ He E). }
  unfold newBeatOf, beatDurationOf, elapsedSince in *.
  unfold tick. rewrite Hp, Hb. cbn [negb]. cbv zeta. rewrite Hle.
  destruct (negb _); reflexivity.
Qed.







(** ** OSC triggers *)

Lemma oscTrigger_skip barInfo s :
  inCountoff s = true \/ FlatBar.absoluteNumber barInfo = lastTriggeredBar s ->
  oscTrigger barInfo s = s.
Proof.
  intros [H|H]; unfold oscTrigger; rewrite H.
  - reflexivity.
  - rewrite Z.eqb_refl, andb_false_r. reflexivity.
Qed.

Lemma oscTrigger_fire barInfo s address :
  inCountoff s = false ->
  FlatBar.absoluteNumber barInfo <> lastTriggeredBar s ->
  FlatBar.oscAddress barInfo = Some address ->
  address <> EmptyString ->
  oscEnabled s = true -> oscClient s = true ->
  events (oscTrigger barInfo s)
  = events s ++ [OscSend address (FlatBar.oscArgs barInfo)]
  /\ lastTriggeredBar (oscTrigger barInfo s) = FlatBar.absoluteNumber barInfo.
Proof.
  intros Hco Hne Ha Hnz He Hc. unfold oscTrigger, sendOscMessage.
  rewrite Hco, Ha. cbn [negb andb truthyS].
  destruct (Z.eqb_spec (FlatBar.absoluteNumber barInfo) (lastTriggeredBar s));
    [contradiction|].
  destruct (String.eqb_spec address EmptyString); [contradiction|].
  cbn. rewrite He, Hc. cbn. split; reflexivity.
Qed.

Lemma oscTrigger_beat barInfo n s :
  oscTrigger barInfo (set_currentBeat n s)
  = set_currentBeat n (oscTrigger barInfo s).
Proof.
  unfold oscTrigger, sendOscMessage. cbn.
  repeat (break_branch; cbn); reflexivity.
Qed.

Lemma getCurrentBarInfo_same s s' :
  sameBar s s' -> getCurrentBarInfo s' = getCurrentBarInfo s.
Proof.
  intros (_ & H1 & H2 & H3 & H4 & H5 & _).
  unfold getCurrentBarInfo, getAbsoluteBarNumber.
  rewrite H1, H2, H3, H4, H5. destruct (inCountoff s); reflexivity.
Qed.

Lemma withinBar_same s s' barInfo now :
  sameBar s s' -> withinBar s barInfo now -> withinBar s' barInfo now.
Proof.
  intros (_ & _ & H2 & _ & _ & _ & H6 & _).
  unfold withinBar, elapsedSince, barDurationOf, getBarDuration.
  rewrite H2, H6. exact (fun H => H).
Qed.

(** A tick inside the bar stays on the bar; what it sends is what the OSC
    trigger sends, and the state update. *)
Lemma tick_within_bar_step now s barInfo :
  isPlaying s = true ->
  getCurrentBarInfo s = Some (Some barInfo) ->
  withinBar s barInfo now ->
  exists s',
    tick now s = Some s'
    /\ sameBar s s'
    /\ events s'
       = events (oscTrigger barInfo s) ++ [IoEmit "state-update"]
    /\ lastTriggeredBar s' = lastTriggeredBar (oscTrigger barInfo s).
Proof.
  intros Hp Hb Hw. eexists.
  split; [apply (tick_within_bar now s barInfo); assumption|].
  destruct (oscTrigger_fields barInfo s)
    as (_ & F2 & F3 & F4 & F5 & F6 & _ & F8 & F9 & F10 & F11).
  destruct (negb _); rewrite ?oscTrigger_beat; cbn;
    (split; [unfold sameBar; cbn; conjuncts; assumption|]);
    split; reflexivity.
Qed.

(** Once the bar has been triggered, ticks inside it send nothing. *)
Lemma ticks_within_bar_quiet barInfo :
  forall times s,
    isPlaying s = true ->
    inCountoff s = false ->
    getCurrentBarInfo s = Some (Some barInfo) ->
    lastTriggeredBar s = FlatBar.absoluteNumber barInfo ->
    Forall (withinBar s barInfo) times ->
    exists s',
      ticks times s = Some s'
      /\ oscLog s' = oscLog s
      /\ lastTriggeredBar s' = FlatBar.absoluteNumber barInfo.
Proof.
  induction times as [|now rest IH]; intros s Hp Hco Hb Hl Hw.
  - exists s. conjuncts; auto.
  - inversion Hw as [|? ? Hnow Hrest]; subst.
    destruct (tick_within_bar_step now s barInfo Hp Hb Hnow)
      as (s1 & Ht & Hs & Hev & Hlt).
    rewrite oscTrigger_skip in Hev, Hlt by (right; symmetry; exact Hl).
    pose proof Hs as (S0 & S1 & _).
    destruct (IH s1) as (s' & Hts & Hlog & Hl').
    + congruence.
    + congruence.
    + rewrite (getCurrentBarInfo_same s s1 Hs). exact Hb.
    + congruence.
    + eapply Forall_impl; [|exact Hrest].
      intros t. apply withinBar_same. exact Hs.
    + exists s'. cbn [ticks]. rewrite Ht.
      split; [exact Hts|]. split; [|exact Hl'].
      rewrite Hlog. unfold oscLog. rewrite Hev, filter_app. cbn.
      apply app_nil_r.
Qed.

(** X20: while a bar with an OSC address is played outside the countoff,
    with OSC enabled and a client, and the bar has not been triggered yet,
    the timer ticks that fall inside the bar, however many, send the bar's
    message exactly once: the first tick sends it and records the bar in
    [lastTriggeredBar], the later ones send nothing. *)
Theorem osc_trigger_once_per_bar now times s barInfo address :
  isPlaying s = true ->
  inCountoff s = false ->
  getCurrentBarInfo s = Some (Some barInfo) ->
  FlatBar.absoluteNumber barInfo <> lastTriggeredBar s ->
  FlatBar.oscAddress barInfo = Some address ->
  address <> EmptyString ->
  oscEnabled s = true -> oscClient s = true ->
  Forall (withinBar s barInfo) (now :: times) ->
  exists s',
    ticks (now :: times) s = Some s'
    /\ oscLog s' = oscLog s ++ [OscSend address (FlatBar.oscArgs barInfo)]
    /\ lastTriggeredBar s' = FlatBar.absoluteNumber barInfo.
Proof.
  intros Hp Hco Hb Hne Ha Hnz He Hc Hw.
  inversion Hw as [|? ? Hnow Hrest]; subst.
  destruct (tick_within_bar_step now s barInfo Hp Hb Hnow)
    as (s1 & Ht & Hs & Hev & Hlt).
  destruct (oscTrigger_fire barInfo s address Hco Hne Ha Hnz He Hc)
    as [Fev Fl].
  rewrite Fev in Hev. rewrite Fl in Hlt.
  pose proof Hs as (S0 & S1 & _).
  destruct (ticks_within_bar_quiet barInfo times s1) as (s' & Hts & Hlog & Hl').
  - congruence.
  - congruence.
  - rewrite (getCurrentBarInfo_same s s1 Hs). exact Hb.
  - exact Hlt.
  - eapply Forall_impl; [|exact Hrest].
    intros t. apply withinBar_same. exact Hs.
  - exists s'. cbn [ticks]. rewrite Ht.
    split; [exact Hts|]. split; [|exact Hl'].
    rewrite Hlog. unfold oscLog. rewrite Hev, !filter_app. cbn.
    rewrite app_nil_r. reflexivity.
Qed.

Lemma osc_trigger_once_per_bar_witness :
  exists s',
    ticks [10; 500; 1900] oscServer = Some s'
    /\ oscLog s' = oscLog oscServer ++ [OscSend "/cue" (FlatBar.oscArgs oscInfo)]
    /\ lastTriggeredBar s' = FlatBar.absoluteNumber oscInfo.
Proof.
  apply (osc_trigger_once_per_bar 10 [500; 1900] oscServer oscInfo "/cue");
    try by_computation; try discriminate.
  repeat (apply Forall_cons; [vm_compute; reflexivity|]). apply Forall_nil.
Defined.


Lemma seekToBar_osc now n s :
  oscEnabled (seekToBar now n s) = oscEnabled s
  /\ oscClient (seekToBar now n s) = oscClient s.
Proof.
  unfold seekToBar. destruct (seekLoop _ n 0). cbn. split; reflexivity.
Qed.




(** ** OSC switched off *)

Lemma oscQuiet_refl s : oscQuiet s s.
Proof. unfold oscQuiet. conjuncts; reflexivity. Qed.

Lemma oscQuiet_trans s1 s2 s3 :
  oscQuiet s1 s2 -> oscQuiet s2 s3 -> oscQuiet s1 s3.
Proof.
  unfold oscQuiet. intros (A & B & C) (D & E & F). conjuncts; congruence.
Qed.

Lemma oscQuiet_emit e s : isOsc e = false -> oscQuiet s (emit e s).
Proof.
  intros He. unfold oscQuiet, oscLog. cbn. rewrite filter_app. cbn.
  rewrite He, app_nil_r. conjuncts; reflexivity.
Qed.

Lemma oscQuiet_seekToBar now n s : oscQuiet s (seekToBar now n s).
Proof.
  destruct (seekToBar_osc now n s) as [A B].
  destruct (seekToBar_fields now n s) as (_&_&_&_&_&_&_&_&_& Hev).
  unfold oscQuiet, oscLog. rewrite Hev, filter_app. cbn.
  rewrite app_nil_r. conjuncts; auto.
Qed.

Lemma oscQuiet_stopPlayback s : oscQuiet s (stopPlayback s).
Proof.
  destruct (stopPlayback_fields s) as (_&_&_&_&_&_&_&_&_& Hev).
  unfold oscQuiet, oscLog. rewrite Hev, !filter_app.
  split; [|split].
  - unfold stopPlayback, stopMidiClock. cbn.
    repeat (break_branch; cbn); reflexivity.
  - unfold stopPlayback, stopMidiClock. cbn.
    repeat (break_branch; cbn); reflexivity.
  - destruct (midiOutput s); cbn; rewrite app_nil_r; reflexivity.
Qed.

Lemma oscQuiet_countoffAdvance now s : oscQuiet s (countoffAdvance now s).
Proof.
  unfold countoffAdvance, oscQuiet, oscLog.
  repeat (cbn; break_branch); conjuncts; auto.
Qed.

Lemma oscQuiet_plainAdvance now s s' :
  plainAdvance now s = Some s' -> oscQuiet s s'.
Proof.
  intros Hadv. unfold plainAdvance in Hadv.
  destruct (index _ _) as [section|]; [|discriminate].
  destruct (_ <? _);
    [injection Hadv as <-; unfold oscQuiet; conjuncts; reflexivity|].
  destruct (_ <? _);
    [injection Hadv as <-; unfold oscQuiet; conjuncts; reflexivity|].
  set (s1 := if onSongEnd s then emit SongEnd s else s) in Hadv.
  assert (K : oscQuiet s s1).
  { subst s1. destruct (onSongEnd s); [|apply oscQuiet_refl].
    apply oscQuiet_emit. reflexivity. }
  destruct (repeatSong s1); injection Hadv as <-.
  - eapply oscQuiet_trans; [exact K|]. unfold oscQuiet.
    conjuncts; reflexivity.
  - eapply oscQuiet_trans; [exact K|]. apply oscQuiet_stopPlayback.
Qed.

(** A bar completion sends no OSC message, whatever the settings. *)
Lemma oscQuiet_advanceToNextBar now s s' :
  advanceToNextBar now s = Some s' -> oscQuiet s s'.
Proof.
  intros Hadv. unfold advanceToNextBar in Hadv.
  destruct (inCountoff s).
  - injection Hadv as <-. apply oscQuiet_countoffAdvance.
  - destruct (getAbsoluteBarNumber s); [|discriminate].
    destruct (redirectOf _).
    + injection Hadv as <-. apply oscQuiet_seekToBar.
    + destruct (_ && _).
      * injection Hadv as <-.
        eapply oscQuiet_trans; [|apply oscQuiet_seekToBar].
        unfold oscQuiet. conjuncts; reflexivity.
      * eapply oscQuiet_plainAdvance; eassumption.
Qed.

Lemma oscQuiet_oscTrigger barInfo s :
  oscEnabled s && oscClient s = false -> oscQuiet s (oscTrigger barInfo s).
Proof.
  intros Hoff.
  destruct (oscTrigger_fields barInfo s) as (_&_&_&_&_&_&_&_&_& A & B).
  unfold oscQuiet. split; [exact A|]. split; [exact B|].
  assert (Hor : negb (oscEnabled s) || negb (oscClient s) = true)
    by (destruct (oscEnabled s), (oscClient s); try discriminate; reflexivity).
  unfold oscTrigger, sendOscMessage, oscLog.
  repeat (cbn; rewrite ?Hor; try break_branch); reflexivity.
Qed.

Lemma oscQuiet_tick now s s' :
  oscEnabled s && oscClient s = false -> tick now s = Some s' ->
  oscQuiet s s'.
Proof.
  intros Hoff Htick. unfold tick in Htick.
  destruct (isPlaying s); cbn [negb] in Htick;
    [|injection Htick as <-; apply oscQuiet_refl].
  destruct (getCurrentBarInfo s) as [[barInfo|]|]; [| |discriminate].
  - cbv zeta in Htick.
    match type of Htick with
    | match ?m with _ => _ end = _ => destruct m as [s1|] eqn:Hm
    end; [|discriminate].
    injection Htick as <-.
    assert (K : oscQuiet s s1).
    { destruct (Qle_bool _ _).
      - eapply oscQuiet_advanceToNextBar; eassumption.
      - destruct (negb _); injection Hm as <-; unfold oscQuiet;
          conjuncts; reflexivity. }
    eapply oscQuiet_trans; [exact K|].
    eapply oscQuiet_trans;
      [apply oscQuiet_oscTrigger|apply oscQuiet_emit; reflexivity].
    destruct K as (A & B & _). rewrite A, B. exact Hoff.
  - injection Htick as <-. apply oscQuiet_stopPlayback.
Qed.

Lemma oscQuiet_ticks :
  forall times s s',
    oscEnabled s && oscClient s = false -> ticks times s = Some s' ->
    oscQuiet s s'.
Proof.
  induction times as [|now rest IH]; intros s s' Hoff Hrun; cbn in Hrun.
  - injection Hrun as <-. apply oscQuiet_refl.
  - destruct (tick now s) as [s1|] eqn:Ht; [|discriminate].
    pose proof (oscQuiet_tick now s s1 Hoff Ht) as K.
    eapply oscQuiet_trans; [exact K|]. apply IH; [|exact Hrun].
    destruct K as (A & B & _). rewrite A, B. exact Hoff.
Qed.

(** X22: after [updateOscSettings] with [enabled] false, the timer sends no
    OSC message, however often it fires and whatever bars carry an OSC
    address: over any run of ticks the OSC messages sent stay the ones
    sent before, OSC stays disabled and the client closed. *)
Theorem no_osc_after_disabling created times s s' :
  ticks times (updateOscSettings false created s) = Some s' ->
  oscLog s' = oscLog s /\ oscEnabled s' = false /\ oscClient s' = false.
Proof.
  intros Hrun.
  assert (Hset : oscEnabled (updateOscSettings false created s) = false
                 /\ oscClient (updateOscSettings false created s) = false
                 /\ oscLog (updateOscSettings false created s) = oscLog s).
  { unfold updateOscSettings, oscLog.
    destruct (oscClient s) eqn:Hc; cbn; rewrite ?Hc; conjuncts; reflexivity. }
  destruct Hset as (A & B & C).
  destruct (oscQuiet_ticks times (updateOscSettings false created s) s')
    as (D & E & F); [rewrite A; reflexivity|exact Hrun|].
  conjuncts; congruence.
Qed.

Lemma no_osc_after_disabling_witness :
  (exists s1, ticks [10; 500; 2100; 2200] oscServer = Some s1
              /\ oscLog s1 <> oscLog oscServer)
  /\ exists s',
       ticks [10; 500; 2100; 2200] (updateOscSettings false true oscServer)
       = Some s'
       /\ oscLog s' = oscLog oscServer
       /\ oscEnabled s' = false /\ oscClient s' = false.
Proof.
  split.
  - eexists. split; [vm_compute; reflexivity|]. vm_compute. discriminate.
  - eexists. split; [vm_compute; reflexivity|].
    apply (no_osc_after_disabling true [10; 500; 2100; 2200] oscServer).
    vm_compute. reflexivity.
Defined.

(** ** The state snapshot *)




Lemma play_score now s :
  scoreData (play now s) = scoreData s
  /\ flatBars (play now s) = flatBars s.
Proof.
  unfold play, startMidiClock, sendMidiContinue, stopMidiClock.
  repeat (cbn; break_branch); cbn; conjuncts; reflexivity.
Qed.



(** ** Where the timer raises *)

(** X25: [play] with a countoff on a score without sections starts the
    countoff, and every callback of the timer and every request for the
    state then raises: [getCurrentBarInfo] reads the tempo of a first
    section that does not exist. *)
Theorem countoff_without_sections_raises now later s :
  isPlaying s = false ->
  barStartTime s = None ->
  0 < Score.countoff (scoreData s) ->
  Score.sections (scoreData s) = [] ->
  inCountoff (play now s) = true
  /\ tick later (play now s) = None
  /\ getCurrentState later (play now s) = None.
Proof.
  intros Hp Hb Hc Hnone.
  destruct (play_fresh now s Hp Hb) as (Fp & _ & Fco & _).
  destruct (play_score now s) as [Fsd _].
  destruct (Z.ltb_spec 0 (Score.countoff (scoreData s))); [|lia].
  unfold tick, getCurrentState, getCurrentBarInfo.
  rewrite Fp, Fco, Fsd, Hnone. conjuncts; reflexivity.
Qed.

Lemma countoff_without_sections_raises_witness :
  inCountoff (play 0 countoffOnly) = true
  /\ tick 16 (play 0 countoffOnly) = None
  /\ getCurrentState 16 (play 0 countoffOnly) = None.
Proof.
  apply (countoff_without_sections_raises 0 16 countoffOnly);
    try by_computation.
  vm_compute. reflexivity.
Defined.

Lemma barsBefore_None sections :
  forall n : nat,
    (List.length sections < n)%nat -> barsBefore sections n = None.
Proof.
  induction sections as [|sec rest IH]; intros n Hn.
  - destruct n; [inversion Hn|reflexivity].
  - destruct n as [|n]; [inversion Hn|].
    cbn [barsBefore]. cbn [List.length] in Hn.
    rewrite IH by lia. reflexivity.
Qed.

Lemma updateScore_fields newScoreData s :
  scoreData (updateScore newScoreData s) = newScoreData
  /\ isPlaying (updateScore newScoreData s) = isPlaying s
  /\ inCountoff (updateScore newScoreData s) = inCountoff s
  /\ currentSectionIndex (updateScore newScoreData s) = currentSectionIndex s
  /\ currentBarInSection (updateScore newScoreData s) = currentBarInSection s.
Proof. unfold updateScore. cbn. conjuncts; reflexivity. Qed.

(** X26: [updateScore] keeps the position.  When the score is replaced,
    while the server plays outside the countoff, by one with fewer
    sections than the index of the section being played, the next callback
    of the timer raises, and so do a request for the state and a bar
    completion: the loop of [getAbsoluteBarNumber] reads the bars of a
    section that does not exist. *)
Theorem score_edit_below_the_position_raises now newScoreData s :
  isPlaying s = true ->
  inCountoff s = false ->
  len (Score.sections newScoreData) < currentSectionIndex s ->
  currentSectionIndex (updateScore newScoreData s) = currentSectionIndex s
  /\ getAbsoluteBarNumber (updateScore newScoreData s) = None
  /\ tick now (updateScore newScoreData s) = None
  /\ getCurrentState now (updateScore newScoreData s) = None
  /\ advanceToNextBar now (updateScore newScoreData s) = None.
Proof.
  intros Hp Hco Hlen.
  destruct (updateScore_fields newScoreData s) as (Fsd & Fp & Fco & Fsi & _).
  assert (Habs : getAbsoluteBarNumber (updateScore newScoreData s) = None).
  { unfold getAbsoluteBarNumber. rewrite Fco, Hco, Fsd, Fsi.
    rewrite barsBefore_None; [reflexivity|]. unfold len in Hlen. lia. }
  unfold tick, getCurrentState, advanceToNextBar, getCurrentBarInfo.
  rewrite Fp, Hp, Fco, Hco, Habs. conjuncts; auto.
Qed.

Lemma score_edit_below_the_position_raises_witness :
  currentSectionIndex (updateScore emptyScore playingOnBarThree)
  = currentSectionIndex playingOnBarThree
  /\ getAbsoluteBarNumber (updateScore emptyScore playingOnBarThree) = None
  /\ tick 16 (updateScore emptyScore playingOnBarThree) = None
  /\ getCurrentState 16 (updateScore emptyScore playingOnBarThree) = None
  /\ advanceToNextBar 16 (updateScore emptyScore playingOnBarThree) = None.
Proof.
  apply (score_edit_below_the_position_raises 16 emptyScore playingOnBarThree);
    try by_computation.
  vm_compute. reflexivity.
Defined.

(** ** Shutting down *)

(** X27: [stop] leaves the server paused where it was, with the OSC client
    and the MIDI output closed.  A MIDI output that was open receives Stop
    (0xFC) twice when the server was playing, once from [pause] and once
    from [stop] itself, and once when it was not; a closed output receives
    nothing. *)
Theorem stop_closes_the_outputs s :
  isPlaying (stop s) = false
  /\ oscClient (stop s) = false
  /\ midiOutput (stop s) = false
  /\ midiLog (stop s)
     = midiLog s
       ++ (if midiOutput s
           then if isPlaying s
                then [MidiSend 0xFC; MidiSend 0xFC]
                else [MidiSend 0xFC]
           else [])
  /\ currentSectionIndex (stop s) = currentSectionIndex s
  /\ currentBarInSection (stop s) = currentBarInSection s
  /\ barStartTime (stop s) = barStartTime s.
Proof.
  destruct s as [sd rs oe oc ltb me mo mci ip ico cbr csi cbi cb bst ui
                 le ls lend fb ose ev].
  unfold stop, pause, stopMidiClock, midiLog. cbn.
  destruct ip, mo, oc, mci; cbn;
    rewrite ?filter_app; cbn; rewrite <- ?app_assoc, ?app_nil_r; cbn;
    conjuncts; reflexivity.
Qed.
